(** * pachislot-counter: the statistics core (statistics_utils.py)

    A shallow embedding of [statistics_utils.py] and proofs of the
    properties its specification states.

    Numbers.  Python [int]s are [Z].  Python [float]s are modelled by exact
    rationals [Q]: every arithmetic operation is the exact one, and rounding,
    overflow, infinities and NaN are outside the model.  Equality of floats
    is therefore [Qeq] ([==]).

    Failure.  A Python call either returns a value or raises; a function
    that may raise returns [result A]. *)

From Stdlib Require Import ZArith QArith Qminmax Qabs List Bool Ascii String.
From Stdlib Require Import Lia Lqa.
From Stdlib Require Finite.
From Stdlib Require Import Setoid Morphisms.
Import ListNotations.

Local Open Scope Z_scope.
Local Open Scope Q_scope.

(** ** Exceptions and results *)

Inductive exn : Type :=
| ValueError
| ZeroDivisionError.

Inductive result (A : Type) : Type :=
| Ok (a : A)
| Raise (e : exn).

Arguments Ok {A} a.
Arguments Raise {A} e.

Definition bind {A B : Type} (m : result A) (f : A -> result B) : result B :=
  match m with
  | Ok a => f a
  | Raise e => Raise e
  end.

Notation "x <- m ;; k" := (bind m (fun x => k))
  (at level 61, m at next level, right associativity).

(** [mapM f l]: a list comprehension [[f(x) for x in l]] whose body may
    raise; the first exception aborts the comprehension. *)
Fixpoint mapM {A B : Type} (f : A -> result B) (l : list A) : result (list B) :=
  match l with
  | [] => Ok []
  | x :: r => y <- f x ;; ys <- mapM f r ;; Ok (y :: ys)
  end.

(** ** Python arithmetic on floats *)

Definition Qltb (a b : Q) : bool := negb (Qle_bool b a).

(** [a / b]: true division raises [ZeroDivisionError] on a zero divisor. *)
Definition py_div (a b : Q) : result Q :=
  if Qeq_bool b 0 then Raise ZeroDivisionError else Ok (a / b).

(** The builtin [sum]: starts from [0] and adds from the left. *)
Definition py_sum (l : list Q) : Q := fold_left Qplus l 0.

(** The builtins [max(a, b)] and [min(a, b)] of two arguments: the first
    argument is kept unless the second is strictly greater (smaller). *)
Definition py_max (a b : Q) : Q := if Qltb a b then b else a.
Definition py_min (a b : Q) : Q := if Qltb b a then b else a.

(** ** The library functions the module calls (scipy.stats)

    [scipy] is a third-party library; the module only calls it.  Its
    functions are modelled by the mathematical quantity they compute. *)

(** The binomial coefficient, by Pascal's rule. *)
Fixpoint binom (n k : nat) : nat :=
  match n, k with
  | _, O => 1
  | O, S _ => 0
  | S n', S k' => binom n' k' + binom n' k
  end.

Fixpoint qpow (x : Q) (e : nat) : Q :=
  match e with
  | O => 1
  | S e' => x * qpow x e'
  end.

(** The probability of [k] successes in [n] Bernoulli([p]) trials. *)
Definition pmf_nat (n k : nat) (p : Q) : Q :=
  inject_Z (Z.of_nat (binom n k)) * qpow p k * qpow (1 - p) (n - k).

(** [scipy.stats.binom.pmf(k, n, p)]: zero outside the support [0..n]. *)
Definition binom_pmf (k n : Z) (p : Q) : Q :=
  if ((0 <=? k) && (k <=? n))%Z
  then pmf_nat (Z.to_nat n) (Z.to_nat k) p
  else 0.

(** The outcome counts [0, 1, ..., n]. *)
Definition outcomes (n : Z) : list Z :=
  map Z.of_nat (seq 0 (S (Z.to_nat n))).

(** Modelled from the spec: the p-value of [scipy.stats.binomtest] with
    [alternative='two-sided'] is library code, not part of this repository.
    Following section 4.2 it is the sum, over the outcome counts [j] in
    [0..n], of the PMF at [j] for every [j] whose PMF is at most the PMF at
    the observed [k]. *)
Definition two_sided_pvalue (k n : Z) (p : Q) : Q :=
  py_sum (map (fun j => binom_pmf j n p)
              (filter (fun j => Qle_bool (binom_pmf j n p) (binom_pmf k n p))
                      (outcomes n))).

(** [scipy.stats.binomtest(k, n, p, alternative='two-sided').pvalue].
    The library validates its arguments before it computes anything and
    raises [ValueError] when [k < 0], when [n < 1], when [k > n] and when
    [p] is outside [[0, 1]]. *)
Definition binomtest (k n : Z) (p : Q) : result Q :=
  if (k <? 0)%Z then Raise ValueError
  else if (n <? 1)%Z then Raise ValueError
  else if (n <? k)%Z then Raise ValueError
  else if negb (Qle_bool 0 p && Qle_bool p 1) then Raise ValueError
  else Ok (two_sided_pvalue k n p).

(** ** statistics_utils.py *)

Definition binomial_p_value (n k : Z) (p : Q) : result Q :=
  if (n <=? 0)%Z || Qle_bool p 0 || Qle_bool 1 p then Ok 1
  else binomtest k n p.

Definition calculate_likelihood (n k : Z) (p : Q) : Q :=
  if (n <=? 0)%Z || Qle_bool p 0 || Qle_bool 1 p then 0
  else binom_pmf k n p.

Definition calculate_relative_likelihood (n k : Z) (probabilities : list Q)
  : result (list Q) :=
  let likelihoods := map (calculate_likelihood n k) probabilities in
  let total := py_sum likelihoods in
  if Qeq_bool total 0 then
    u <- py_div 1 (inject_Z (Z.of_nat (List.length probabilities))) ;;
    Ok (repeat u (List.length probabilities))
  else
    mapM (fun l => py_div l total) likelihoods.


Section ConfidenceInterval.

(** [scipy.stats.norm.ppf], the quantile function of the standard normal
    distribution, and [numpy.sqrt]: library functions with irrational
    values, kept abstract. *)
Variable norm_ppf : Q -> Q.
Variable np_sqrt : Q -> Q.

Definition get_confidence_interval (p : Q) (n : Z) (confidence : Q)
  : result (Q * Q) :=
  if (n <=? 0)%Z then Ok (0, 1)
  else
    q <- py_div (1 + confidence) 2 ;;
    let z := norm_ppf q in
    v <- py_div (p * (1 - p)) (inject_Z n) ;;
    let se := np_sqrt v in
    let lower := py_max 0 (p - z * se) in
    let upper := py_min 1 (p + z * se) in
    Ok (lower, upper).

Definition get_expected_count_range (p : Q) (n : Z) (confidence : Q)
  : result (Q * Q) :=
  ci <- get_confidence_interval p n confidence ;;
  let '(lower_p, upper_p) := ci in
  Ok (lower_p * inject_Z n, upper_p * inject_Z n).

End ConfidenceInterval.

(** The default of the [confidence] and [significance] parameters. *)
Definition default_confidence : Q := 95 # 100.
Definition default_significance : Q := 5 # 100.

Definition evaluate_setting (p_value significance : Q) : string * string :=
  if Qltb p_value (significance / 2) then ("✗", "否定的")%string
  else if Qltb p_value significance then ("△", "やや否定的")%string
  else if Qltb p_value (25 # 100) then ("○", "可能性あり")%string
  else ("◎", "高い可能性")%string.

(** ** Strings *)

(** The characters [str.strip()] removes, within ASCII. *)
Definition is_space (c : ascii) : bool :=
  let n := nat_of_ascii c in
  ((9 <=? n) && (n <=? 13) || (28 <=? n) && (n <=? 32))%nat.

Fixpoint lstrip (s : string) : string :=
  match s with
  | String c r => if is_space c then lstrip r else s
  | EmptyString => EmptyString
  end.

Definition rev_string (s : string) : string :=
  string_of_list_ascii (rev (list_ascii_of_string s)).

Definition strip (s : string) : string :=
  rev_string (lstrip (rev_string (lstrip s))).

(** [s.endswith(c)] for a one-character suffix. *)
Definition endswith (s : string) (c : ascii) : bool :=
  match rev_string s with
  | String d _ => Ascii.eqb d c
  | EmptyString => false
  end.

(** [s[:-1]] *)
Definition drop_last (s : string) : string :=
  match rev_string s with
  | String _ r => rev_string r
  | EmptyString => EmptyString
  end.

(** [c in s] *)
Fixpoint contains (c : ascii) (s : string) : bool :=
  match s with
  | String d r => Ascii.eqb d c || contains c r
  | EmptyString => false
  end.

(** [s.split(c)]: the pieces between the occurrences of [c]. *)
Fixpoint split (c : ascii) (s : string) : list string :=
  match s with
  | EmptyString => [EmptyString]
  | String d r =>
      if Ascii.eqb d c then EmptyString :: split c r
      else match split c r with
           | piece :: pieces => String d piece :: pieces
           | [] => [String d EmptyString]
           end
  end.

Section ParseProbability.

(** The builtin [float(text)]: the value of the text, or [ValueError]. *)
Variable float : string -> result Q.

Definition parse_probability_input (input_str : string) : result Q :=
  let input_str := strip input_str in
  if endswith input_str "%" then
    x <- float (drop_last input_str) ;;
    py_div x 100
  else
    let decimal :=
      value <- float input_str ;;
      if Qltb 1 value then py_div 1 value else Ok value in
    if contains "/" input_str then
      let parts := split "/" input_str in
      match parts with
      | [part0; part1] =>
          numerator <- float part0 ;;
          denominator <- float part1 ;;
          if negb (Qeq_bool denominator 0) then py_div numerator denominator
          else decimal
      | _ => decimal
      end
    else decimal.

End ParseProbability.

(** A concrete [float] for plain decimal literals: surrounding blanks, an
    optional sign, digits with an optional decimal point.  Python's [float]
    also reads exponents, digit separators and the names of the infinities
    and of NaN; those texts are outside this reader, which rejects them. *)
Definition digit_of (c : ascii) : option Z :=
  let n := nat_of_ascii c in
  if ((48 <=? n) && (n <=? 57))%nat then Some (Z.of_nat (n - 48)) else None.

(** Reads a run of digits: the value read so far, the number of digits
    read, and the rest of the text. *)
Fixpoint digits (s : string) (acc : Z) (cnt : nat) : Z * nat * string :=
  match s with
  | String c r =>
      match digit_of c with
      | Some d => digits r (10 * acc + d)%Z (S cnt)
      | None => (acc, cnt, s)
      end
  | EmptyString => (acc, cnt, s)
  end.

Definition unsigned_literal (s : string) : result Q :=
  let '(ip, ni, rest) := digits s 0%Z 0%nat in
  match rest with
  | EmptyString => if (ni =? 0)%nat then Raise ValueError else Ok (inject_Z ip)
  | String "." r =>
      let '(all, nf, rest') := digits r ip 0%nat in
      match rest' with
      | EmptyString =>
          if (ni + nf =? 0)%nat then Raise ValueError
          else Ok (inject_Z all / inject_Z (10 ^ Z.of_nat nf))
      | _ => Raise ValueError
      end
  | _ => Raise ValueError
  end.

Definition float_literal (s : string) : result Q :=
  match strip s with
  | String "-" r => x <- unsigned_literal r ;; Ok (- x)
  | String "+" r => unsigned_literal r
  | t => unsigned_literal t
  end.

(** The sum [f 0 + ... + f (m-1)], the form the inductions on sums use. *)
Fixpoint sumf (f : nat -> Q) (m : nat) : Q :=
  match m with
  | O => 0
  | S m' => sumf f m' + f m'
  end.

From Stdlib Require Import Sorted Permutation.

(** ** Dictionaries

    A Python [dict] is an association list in insertion order whose keys
    are distinct ([distinct (keys d) = true]). *)

Definition dict (V : Type) : Type := list (string * V).

Definition keys {V : Type} (d : dict V) : list string := map fst d.

Definition values {V : Type} (d : dict V) : list V := map snd d.

Fixpoint distinct (l : list string) : bool :=
  match l with
  | [] => true
  | x :: r => negb (existsb (String.eqb x) r) && distinct r
  end.

(** [d[key]]; [None] stands for [KeyError]. *)
Fixpoint dict_get {V : Type} (d : dict V) (key : string) : option V :=
  match d with
  | [] => None
  | (k, v) :: r => if String.eqb k key then Some v else dict_get r key
  end.

(** [d[key] = v]: an existing key keeps its place, a new key goes last. *)
Fixpoint dict_set {V : Type} (d : dict V) (key : string) (v : V) : dict V :=
  match d with
  | [] => [(key, v)]
  | (k, w) :: r =>
      if String.eqb k key then (k, v) :: r else (k, w) :: dict_set r key v
  end.

(** ** The builtin [range]

    [list(range(start, stop, step))]: [ValueError] on a zero step;
    otherwise [start, start + step, ...] up to, not including, [stop]. *)
Definition py_range (start stop step : Z) : result (list Z) :=
  if (step =? 0)%Z then Raise ValueError
  else
    let len :=
      if (0 <? step)%Z
      then (if (start <? stop)%Z then (stop - start - 1) / step + 1 else 0)%Z
      else (if (stop <? start)%Z then (start - stop - 1) / (- step) + 1 else 0)%Z in
    Ok (map (fun i => (start + Z.of_nat i * step)%Z) (seq 0 (Z.to_nat len))).

(** ** statistics_utils.py: generate_probability_curve_data *)

Record curve : Type := mk_curve {
  expected : list Q;
  lower : list Q;
  upper : list Q
}.

Record curve_data : Type := mk_curve_data {
  n_values : list Z;
  curves : dict curve
}.

(** The default of the [step] parameter. *)
Definition default_step : Z := 10.

Section CurveData.

Variable norm_ppf : Q -> Q.
Variable np_sqrt : Q -> Q.

(** The points [n] the curves are drawn at. *)
Definition curve_points (max_n step : Z) : result (list Z) :=
  n_values <- py_range step (max_n + 1) step ;;
  if negb (existsb (Z.eqb max_n) n_values) then Ok (n_values ++ [max_n])
  else Ok n_values.

(** The body of the loop over [probabilities.items()] for one setting. *)
Definition setting_curve (n_values : list Z) (p : Q) : result curve :=
  let expected := map (fun n => p * inject_Z n) n_values in
  bounds <- mapM (fun n => get_expected_count_range norm_ppf np_sqrt p n (95 # 100))
                 n_values ;;
  Ok (mk_curve expected (map fst bounds) (map snd bounds)).

Definition generate_probability_curve_data
  (probabilities : dict Q) (max_n step : Z) : result curve_data :=
  n_values <- curve_points max_n step ;;
  curves <-
    fold_left
      (fun acc item =>
         result_curves <- acc ;;
         let '(setting_name, p) := item in
         c <- setting_curve n_values p ;;
         Ok (dict_set result_curves setting_name c))
      probabilities (Ok []) ;;
  Ok (mk_curve_data n_values curves).

End CurveData.

(** The verdict symbols of [evaluate_setting] in their order, from
    rejection to support. *)
Definition verdict_rank (symbol : string) : nat :=
  if String.eqb symbol "✗" then 0
  else if String.eqb symbol "△" then 1
  else if String.eqb symbol "○" then 2
  else 3.

(** ** app.py *)

Module App.

(** The counters of the four colours, as the session starts. *)
Definition initial_counts : dict Z :=
  [("黄", 0); ("赤", 0); ("緑", 0); ("青", 0)]%Z%string.

Definition increment_count (color : string) (counts : dict Z) : option (dict Z) :=
  match dict_get counts color with
  | Some c => Some (dict_set counts color (c + 1)%Z)
  | None => None
  end.

Definition decrement_count (color : string) (counts : dict Z) : option (dict Z) :=
  match dict_get counts color with
  | Some c =>
      if (0 <? c)%Z then Some (dict_set counts color (c - 1)%Z) else Some counts
  | None => None
  end.

Definition reset_all_counts (counts : dict Z) : dict Z :=
  fold_left (fun acc color => dict_set acc color 0%Z) (keys counts) counts.

(** The three kinds of counter buttons of [main]: plus and minus for a
    colour, and the reset of all counters. *)
Inductive press : Type :=
| Plus (color : string)
| Minus (color : string)
| ResetAll.

Definition press_button (b : press) (counts : dict Z) : option (dict Z) :=
  match b with
  | Plus color => increment_count color counts
  | Minus color => decrement_count color counts
  | ResetAll => Some (reset_all_counts counts)
  end.

(** A sequence of presses, each on the counters the previous one left. *)
Fixpoint press_buttons (bs : list press) (counts : dict Z) : option (dict Z) :=
  match bs with
  | [] => Some counts
  | b :: rest =>
      match press_button b counts with
      | Some counts' => press_buttons rest counts'
      | None => None
      end
  end.

(** [s.replace(old, new)] for a nonempty [old]: every occurrence, from the
    left, without overlap.  [skip] counts the characters of a match that are
    still to be dropped. *)
Fixpoint replace_from (old new s : string) (skip : nat) : string :=
  match s with
  | EmptyString => EmptyString
  | String c r =>
      match skip with
      | S k => replace_from old new r k
      | O =>
          if String.prefix old s
          then (new ++ replace_from old new r (String.length old - 1))%string
          else String c (replace_from old new r 0)
      end
  end.

Definition str_replace (old new s : string) : string := replace_from old new s 0.

(** A concrete [int] for plain decimal literals: surrounding blanks, an
    optional sign, digits.  Python's [int] also reads digit separators;
    those texts are outside this reader, which rejects them. *)
Definition int_literal (s : string) : result Z :=
  let unsigned (t : string) : result Z :=
    let '(v, cnt, rest) := digits t 0%Z 0%nat in
    match rest with
    | EmptyString => if (cnt =? 0)%nat then Raise ValueError else Ok v
    | _ => Raise ValueError
    end in
  match strip s with
  | String "-" r => v <- unsigned r ;; Ok (- v)%Z
  | String "+" r => unsigned r
  | t => unsigned t
  end.

(** One entry of the result list of [run_analysis]. *)
Record row : Type := mk_row {
  setting : string;
  probability : Q;
  p_value : Q;
  symbol : string;
  eval_text : string;
  likelihood : Q
}.

(** What [run_analysis] stores for a colour. *)
Record analysis : Type := mk_analysis {
  results : list row;
  parsed_probs : dict Q;
  count : Z;
  total_spins : Z
}.

(** [list.sort(key=..., reverse=True)] on entries paired with their keys:
    descending keys, entries with equal keys in their original order. *)
Fixpoint insert_desc (x : Z * row) (l : list (Z * row)) : list (Z * row) :=
  match l with
  | [] => [x]
  | y :: r => if (fst x <? fst y)%Z then y :: insert_desc x r else x :: l
  end.

Definition sort_desc (l : list (Z * row)) : list (Z * row) :=
  fold_right insert_desc [] l.

Section Analysis.

(** The builtins [float(text)] and [int(text)]. *)
Variable float : string -> result Q.
Variable int : string -> result Z.

(** The [try] block that reads one denominator: any failure gives 0. *)
Definition parse_denominator (prob_str : string) : Q :=
  match (denominator <- float prob_str ;;
         if Qltb 0 denominator then py_div 1 denominator else Ok 0) with
  | Ok p => p
  | Raise ValueError => 0
  | Raise ZeroDivisionError => 0
  end.

(** The body of the loop over [enumerate(parsed_probs.items())] for the
    item at index [i].  [relative_likelihoods] has one entry per item, so
    the index is in range. *)
Definition analysis_row (n count : Z) (significance : Q)
  (relative_likelihoods : list Q) (i : nat) (item : string * Q) : result row :=
  let '(setting, p) := item in
  if Qltb 0 p then
    p_value <- binomial_p_value n count p ;;
    let '(symbol, eval_text) := evaluate_setting p_value significance in
    let likelihood_pct := nth i relative_likelihoods 0 * 100 in
    Ok (mk_row setting p p_value symbol eval_text likelihood_pct)
  else
    Ok (mk_row setting p 0 "?" "確率未設定" 0).

(** The loop, from index [i] on. *)
Fixpoint analysis_rows (n count : Z) (significance : Q)
  (relative_likelihoods : list Q) (items : dict Q) (i : nat) : result (list row) :=
  match items with
  | [] => Ok []
  | item :: rest =>
      r <- analysis_row n count significance relative_likelihoods i item ;;
      rs <- analysis_rows n count significance relative_likelihoods rest (S i) ;;
      Ok (r :: rs)
  end.

(** The key of the final sort: the number in the name of the setting. *)
Definition sort_key (x : row) : result Z :=
  int (str_replace "設定" "" (setting x)).

(** [run_analysis], with the three values it reads from the session state
    ([probs], [count], [n]) as arguments and the dictionary it stores as its
    result. *)
Definition run_analysis (probs : dict string) (count n : Z) (significance : Q)
  : result analysis :=
  let parsed_probs :=
    fold_left (fun acc item =>
                 let '(setting, prob_str) := item in
                 dict_set acc setting (parse_denominator prob_str))
              probs [] in
  let prob_list := values parsed_probs in
  relative_likelihoods <- calculate_relative_likelihood n count prob_list ;;
  results <- analysis_rows n count significance relative_likelihoods
                           parsed_probs 0 ;;
  sort_keys <- mapM sort_key results ;;
  let results := map snd (sort_desc (combine sort_keys results)) in
  Ok (mk_analysis results parsed_probs count n).

End Analysis.

End App.

(** * Proofs *)

(** ** Comparisons *)

Lemma Qltb_lt (a b : Q) : Qltb a b = true <-> a < b.
Proof.
  unfold Qltb. rewrite negb_true_iff. split; intro H.
  - apply Qnot_le_lt. intro L. apply Qle_bool_iff in L. congruence.
  - destruct (Qle_bool b a) eqn:E; [|reflexivity].
    apply Qle_bool_iff in E. apply Qle_not_lt in E. contradiction.
Qed.

Lemma Qltb_ge (a b : Q) : Qltb a b = false <-> b <= a.
Proof.
  unfold Qltb. rewrite negb_false_iff. apply Qle_bool_iff.
Qed.

Lemma Qle_bool_false (a b : Q) : Qle_bool a b = false <-> b < a.
Proof.
  rewrite <- Qltb_lt. unfold Qltb. rewrite negb_true_iff. reflexivity.
Qed.

Lemma Qeq_bool_false (a b : Q) : Qeq_bool a b = false <-> ~ a == b.
Proof.
  split; intro H.
  - intro E. apply Qeq_bool_iff in E. congruence.
  - destruct (Qeq_bool a b) eqn:E; [|reflexivity].
    apply Qeq_bool_iff in E. contradiction.
Qed.

(** The guard shared by [binomial_p_value] and [calculate_likelihood]. *)
Lemma guard_true (n : Z) (p : Q) :
  (n <=? 0)%Z || Qle_bool p 0 || Qle_bool 1 p = true
  <-> (n <= 0)%Z \/ p <= 0 \/ 1 <= p.
Proof.
  rewrite !orb_true_iff, Z.leb_le, !Qle_bool_iff. tauto.
Qed.

Lemma guard_false (n : Z) (p : Q) :
  (n <=? 0)%Z || Qle_bool p 0 || Qle_bool 1 p = false
  <-> (1 <= n)%Z /\ 0 < p /\ p < 1.
Proof.
  rewrite !orb_false_iff, Z.leb_gt, !Qle_bool_false. intuition lia.
Qed.

(** ** Sums *)

Lemma fold_left_Qplus (l : list Q) (a : Q) :
  fold_left Qplus l a == a + fold_left Qplus l 0.
Proof.
  revert a. induction l as [|x l IH]; intro a; simpl.
  - ring.
  - rewrite IH, (IH (0 + x)). ring.
Qed.

Lemma py_sum_nil : py_sum [] = 0.
Proof. reflexivity. Qed.

Lemma py_sum_cons (x : Q) (l : list Q) : py_sum (x :: l) == x + py_sum l.
Proof.
  unfold py_sum. simpl. rewrite fold_left_Qplus. ring.
Qed.

Lemma py_sum_app (l1 l2 : list Q) : py_sum (l1 ++ l2) == py_sum l1 + py_sum l2.
Proof.
  induction l1 as [|x l1 IH]; simpl.
  - rewrite py_sum_nil. ring.
  - rewrite !py_sum_cons, IH. ring.
Qed.

Lemma py_sum_scale (c : Q) (l : list Q) :
  py_sum (map (fun x => x / c) l) == py_sum l / c.
Proof.
  induction l as [|x l IH]; simpl.
  - rewrite py_sum_nil. unfold Qdiv. ring.
  - rewrite !py_sum_cons, IH. unfold Qdiv. ring.
Qed.

Lemma py_sum_repeat (u : Q) (m : nat) :
  py_sum (repeat u m) == inject_Z (Z.of_nat m) * u.
Proof.
  induction m as [|m IH].
  - simpl. rewrite py_sum_nil. ring.
  - change (repeat u (S m)) with (u :: repeat u m).
    rewrite py_sum_cons, IH, Nat2Z.inj_succ. unfold Z.succ.
    rewrite inject_Z_plus. ring.
Qed.

Lemma py_sum_nonneg (l : list Q) :
  (forall x, In x l -> 0 <= x) -> 0 <= py_sum l.
Proof.
  induction l as [|x l IH]; intro H.
  - rewrite py_sum_nil. apply Qle_refl.
  - rewrite py_sum_cons.
    assert (0 <= x) by (apply H; left; reflexivity).
    assert (0 <= py_sum l) by (apply IH; intros y Hy; apply H; right; exact Hy).
    lra.
Qed.

(** ** List comprehensions that do not raise *)

Lemma mapM_total {A B : Type} (f : A -> result B) (g : A -> B) (l : list A) :
  (forall x, In x l -> f x = Ok (g x)) -> mapM f l = Ok (map g l).
Proof.
  induction l as [|x l IH]; intro H; simpl.
  - reflexivity.
  - rewrite (H x (or_introl eq_refl)). simpl.
    rewrite IH by (intros y Hy; apply H; right; exact Hy). reflexivity.
Qed.

Lemma py_div_ok (a b : Q) : ~ b == 0 -> py_div a b = Ok (a / b).
Proof.
  intro H. unfold py_div. apply Qeq_bool_false in H. rewrite H. reflexivity.
Qed.

Lemma py_div_zero (a b : Q) : b == 0 -> py_div a b = Raise ZeroDivisionError.
Proof.
  intro H. unfold py_div. apply Qeq_bool_iff in H. rewrite H. reflexivity.
Qed.

Lemma inject_length_nonzero {A : Type} (l : list A) :
  l <> [] -> ~ inject_Z (Z.of_nat (List.length l)) == 0.
Proof.
  intros H E. destruct l as [|x l]; [congruence|].
  unfold Qeq, inject_Z in E. simpl in E. lia.
Qed.

(** ** calculate_relative_likelihood *)

(** The two branches of [calculate_relative_likelihood] as equations. *)
Lemma relative_likelihood_uniform (n k : Z) (ps : list Q) :
  ps <> [] ->
  py_sum (map (calculate_likelihood n k) ps) == 0 ->
  calculate_relative_likelihood n k ps =
    Ok (repeat (1 / inject_Z (Z.of_nat (List.length ps))) (List.length ps)).
Proof.
  intros Hne Hz. unfold calculate_relative_likelihood.
  apply Qeq_bool_iff in Hz. cbv zeta. rewrite Hz.
  rewrite py_div_ok by (apply inject_length_nonzero; exact Hne).
  reflexivity.
Qed.

Lemma relative_likelihood_normal (n k : Z) (ps : list Q) :
  ~ py_sum (map (calculate_likelihood n k) ps) == 0 ->
  calculate_relative_likelihood n k ps =
    Ok (map (fun l => l / py_sum (map (calculate_likelihood n k) ps))
            (map (calculate_likelihood n k) ps)).
Proof.
  intros Hnz. unfold calculate_relative_likelihood. cbv zeta.
  pose proof Hnz as Hb. apply Qeq_bool_false in Hb. rewrite Hb.
  apply mapM_total. intros x _. apply py_div_ok. exact Hnz.
Qed.

Lemma nth_repeat_lt (u d : Q) (m i : nat) :
  (i < m)%nat -> nth i (repeat u m) d = u.
Proof.
  intro H. rewrite (nth_indep _ d u) by (rewrite repeat_length; exact H).
  apply nth_repeat.
Qed.

Lemma nth_map_lt {A B : Type} (f : A -> B) (l : list A) (a : A) (b : B) (i : nat) :
  (i < List.length l)%nat -> nth i (map f l) b = f (nth i l a).
Proof.
  intro H. rewrite (nth_indep _ b (f a)) by (rewrite length_map; exact H).
  apply map_nth.
Qed.

Lemma calculate_likelihood_unset (n k : Z) (p : Q) :
  (n <= 0)%Z \/ p <= 0 \/ 1 <= p -> calculate_likelihood n k p = 0.
Proof.
  intro H. unfold calculate_likelihood.
  apply guard_true in H. rewrite H. reflexivity.
Qed.

Lemma calculate_likelihood_pmf (n k : Z) (p : Q) :
  (1 <= n)%Z -> 0 < p -> p < 1 -> calculate_likelihood n k p = binom_pmf k n p.
Proof.
  intros Hn H0 H1. unfold calculate_likelihood.
  rewrite (proj2 (guard_false n p)) by auto. reflexivity.
Qed.

(** C2.  For a nonempty list of probabilities,
    [calculate_relative_likelihood] returns a list of the same length and
    order whose entry [i] is the raw likelihood of [probabilities[i]]
    divided by the sum of all raw likelihoods, or [1/len] for every entry
    when that sum is zero; the raw likelihood is 0 when [n <= 0], [p <= 0]
    or [p >= 1] and the binomial PMF at [k] otherwise; the output sums
    to 1. *)
Theorem relative_likelihood_normalised (n k : Z) (probabilities : list Q) :
  probabilities <> [] ->
  let total := py_sum (map (calculate_likelihood n k) probabilities) in
  let len := List.length probabilities in
  (forall p, ((n <= 0)%Z \/ p <= 0 \/ 1 <= p -> calculate_likelihood n k p = 0) /\
             ((1 <= n)%Z /\ 0 < p /\ p < 1 ->
              calculate_likelihood n k p = binom_pmf k n p)) /\
  exists out,
    calculate_relative_likelihood n k probabilities = Ok out /\
    List.length out = len /\
    (forall i, (i < len)%nat ->
       nth i out 0 ==
         if Qeq_bool total 0 then 1 / inject_Z (Z.of_nat len)
         else calculate_likelihood n k (nth i probabilities 0) / total) /\
    py_sum out == 1.
Proof.
  intros Hne total len. split.
  { intro p. split.
    - apply calculate_likelihood_unset.
    - intros (Hn & H0 & H1). apply calculate_likelihood_pmf; assumption. }
  destruct (Qeq_bool total 0) eqn:E.
  - apply Qeq_bool_iff in E.
    exists (repeat (1 / inject_Z (Z.of_nat len)) len). split; [|split; [|split]].
    + apply relative_likelihood_uniform; assumption.
    + apply repeat_length.
    + intros i Hi. rewrite nth_repeat_lt by exact Hi. reflexivity.
    + rewrite py_sum_repeat. field. apply inject_length_nonzero. exact Hne.
  - apply Qeq_bool_false in E.
    exists (map (fun l => l / total) (map (calculate_likelihood n k) probabilities)).
    split; [|split; [|split]].
    + apply relative_likelihood_normal. exact E.
    + rewrite !length_map. reflexivity.
    + intros i Hi. rewrite map_map.
      rewrite (nth_map_lt _ _ 0) by exact Hi. reflexivity.
    + rewrite py_sum_scale. fold total. field. exact E.
Qed.

Lemma relative_likelihood_normalised_witness :
  exists out,
    calculate_relative_likelihood 4 1 [1 # 2; 1 # 3; 2] = Ok out /\
    List.length out = 3%nat /\ py_sum out == 1.
Proof.
  destruct (relative_likelihood_normalised 4 1 [1 # 2; 1 # 3; 2])
    as (_ & out & H1 & H2 & _ & H4).
  - discriminate.
  - exists out. split; [exact H1|]. split; [exact H2|exact H4].
Defined.

(** C10.  [calculate_relative_likelihood] returns a list for every nonempty
    list of probabilities; on the empty list the total is 0 and the uniform
    branch divides by [len([]) = 0], so the call raises
    [ZeroDivisionError] instead of returning the empty list. *)
Theorem relative_likelihood_empty_raises :
  (forall n k probabilities, probabilities <> [] ->
     exists out, calculate_relative_likelihood n k probabilities = Ok out) /\
  (forall n k, calculate_relative_likelihood n k [] = Raise ZeroDivisionError).
Proof.
  split.
  - intros n k ps Hne.
    destruct (Qeq_bool (py_sum (map (calculate_likelihood n k) ps)) 0) eqn:E.
    + apply Qeq_bool_iff in E. eexists.
      apply relative_likelihood_uniform; assumption.
    + apply Qeq_bool_false in E. eexists.
      apply relative_likelihood_normal; assumption.
  - intros n k. reflexivity.
Qed.

Lemma relative_likelihood_empty_raises_witness :
  (exists out, calculate_relative_likelihood 100 10 [1 # 7; 0] = Ok out) /\
  calculate_relative_likelihood 100 10 [] = Raise ZeroDivisionError.
Proof.
  split.
  - apply (proj1 relative_likelihood_empty_raises). discriminate.
  - apply (proj2 relative_likelihood_empty_raises).
Defined.

(** C3, as stated, fails: with every candidate unset the total likelihood
    is 0 and the uniform fallback gives each of them [1/3], a positive
    relative likelihood for candidates that do not participate. *)
Lemma unset_candidate_positive_share :
  ~ (forall n k probabilities out i,
       calculate_relative_likelihood n k probabilities = Ok out ->
       (i < List.length probabilities)%nat ->
       ~ (0 < nth i probabilities 0 /\ nth i probabilities 0 < 1) ->
       nth i out 0 == 0).
Proof.
  intro H.
  specialize (H 100%Z 10%Z [0; 0; 0] [1 # 3; 1 # 3; 1 # 3] 0%nat eq_refl).
  simpl in H.
  assert (E : 1 # 3 == 0).
  { apply H; [lia|]. intros [L _]. apply Qlt_irrefl in L. exact L. }
  discriminate E.
Qed.

(** C3, amended.  A candidate whose probability is not strictly inside
    (0,1) has raw likelihood 0 and, whenever the total likelihood is not
    zero, relative likelihood 0; when the total likelihood is zero the
    uniform fallback gives every candidate of the list, participating or
    not, the share [1/len]. *)
Theorem unset_candidate_share (n k : Z) (probabilities out : list Q) (i : nat) :
  calculate_relative_likelihood n k probabilities = Ok out ->
  (i < List.length probabilities)%nat ->
  ~ (0 < nth i probabilities 0 /\ nth i probabilities 0 < 1) ->
  let total := py_sum (map (calculate_likelihood n k) probabilities) in
  calculate_likelihood n k (nth i probabilities 0) = 0 /\
  (~ total == 0 -> nth i out 0 == 0) /\
  (total == 0 ->
   forall j, (j < List.length probabilities)%nat ->
     nth j out 0 == 1 / inject_Z (Z.of_nat (List.length probabilities))).
Proof.
  intros Hout Hi Hp total.
  assert (Hne : probabilities <> []).
  { intro E. subst probabilities. simpl in Hi. lia. }
  assert (Hraw : calculate_likelihood n k (nth i probabilities 0) = 0).
  { apply calculate_likelihood_unset.
    destruct (Qlt_le_dec 0 (nth i probabilities 0)) as [L|L]; [|tauto].
    destruct (Qlt_le_dec (nth i probabilities 0) 1) as [L'|L']; tauto. }
  split; [exact Hraw|]. split.
  - intro Hnz. rewrite relative_likelihood_normal in Hout by exact Hnz.
    injection Hout as <-. rewrite map_map.
    rewrite (nth_map_lt _ _ 0) by exact Hi. rewrite Hraw.
    unfold Qdiv. ring.
  - intros Hz j Hj.
    rewrite relative_likelihood_uniform in Hout by assumption.
    injection Hout as <-. rewrite nth_repeat_lt by exact Hj. reflexivity.
Qed.

Lemma unset_candidate_share_witness :
  calculate_likelihood 4 1 (nth 1 [1 # 2; 0] 0) = 0.
Proof.
  refine (proj1 (unset_candidate_share 4 1 [1 # 2; 0] _ 1 eq_refl _ _)).
  - simpl. lia.
  - simpl. intros [L _]. apply Qlt_irrefl in L. exact L.
Defined.

(** ** binomial_p_value *)

(** C6.  When [n <= 0], [p <= 0] or [p >= 1], [binomial_p_value] returns
    exactly 1.0 whatever [k] is; in particular
    [binomial_p_value(0, 0, 0.5) = 1.0]. *)
Theorem binomial_p_value_degenerate :
  (forall n k p, (n <= 0)%Z \/ p <= 0 \/ 1 <= p ->
     binomial_p_value n k p = Ok 1) /\
  binomial_p_value 0 0 (1 # 2) = Ok 1.
Proof.
  split.
  - intros n k p H. unfold binomial_p_value.
    apply guard_true in H. rewrite H. reflexivity.
  - reflexivity.
Qed.

Lemma binomial_p_value_degenerate_witness :
  binomial_p_value 1000 150 (3 # 2) = Ok 1.
Proof.
  apply (proj1 binomial_p_value_degenerate). right. right. discriminate.
Defined.

(** C9.  With [n >= 1] and [p] strictly inside (0,1) the guard of
    [binomial_p_value] does not fire, and a [k] outside [0..n] reaches the
    library's two-sided test, which rejects it: the call raises
    [ValueError]; no degenerate value is returned. *)
Theorem binomial_p_value_count_out_of_range (n k : Z) (p : Q) :
  (1 <= n)%Z -> 0 < p -> p < 1 -> (k < 0)%Z \/ (n < k)%Z ->
  binomial_p_value n k p = Raise ValueError.
Proof.
  intros Hn H0 H1 Hk. unfold binomial_p_value.
  rewrite (proj2 (guard_false n p)) by auto.
  unfold binomtest.
  destruct (Z.ltb_spec k 0) as [L|L]; [reflexivity|].
  destruct (Z.ltb_spec n 1) as [L1|L1]; [reflexivity|].
  destruct (Z.ltb_spec n k) as [L2|L2]; [reflexivity|lia].
Qed.

Lemma binomial_p_value_count_out_of_range_witness :
  binomial_p_value 10 11 (1 # 2) = Raise ValueError.
Proof.
  apply binomial_p_value_count_out_of_range.
  - lia.
  - reflexivity.
  - reflexivity.
  - right. lia.
Defined.

(** ** evaluate_setting *)

Local Open Scope string_scope.

Ltac verdict_cases p s :=
  unfold evaluate_setting;
  destruct (Qltb p (s / 2)) eqn:E1;
  [ apply Qltb_lt in E1
  | apply Qltb_ge in E1;
    destruct (Qltb p s) eqn:E2;
    [ apply Qltb_lt in E2
    | apply Qltb_ge in E2;
      destruct (Qltb p (25 # 100)) eqn:E3;
      [ apply Qltb_lt in E3 | apply Qltb_ge in E3 ] ] ];
  simpl fst.

(** C4, as stated, fails: with significance 0.5 the p-value 0.3 is at
    least 0.25 and yet the verdict is the weakly-reject one, because the
    comparison with [significance] comes before the one with 0.25. *)
Lemma evaluate_setting_large_significance :
  ~ (forall p_value significance,
       (fst (evaluate_setting p_value significance) = "✗"
        <-> p_value < significance / 2) /\
       (fst (evaluate_setting p_value significance) = "△"
        <-> significance / 2 <= p_value /\ p_value < significance) /\
       (fst (evaluate_setting p_value significance) = "○"
        <-> significance <= p_value /\ p_value < 25 # 100) /\
       (fst (evaluate_setting p_value significance) = "◎"
        <-> 25 # 100 <= p_value))%Q.
Proof.
  intro H. destruct (H (3 # 10) (1 # 2))%Q as (_ & _ & _ & [_ H4]).
  assert (E : fst (evaluate_setting (3 # 10) (1 # 2)) = "◎").
  { apply H4. discriminate. }
  vm_compute in E. discriminate E.
Qed.

(** A negative significance breaks the weakly-support clause as well:
    then [significance/2] lies above [significance], and a p-value between
    the two is rejected by the first comparison. *)
Lemma evaluate_setting_negative_significance :
  fst (evaluate_setting (- (8 # 10)) (- (1))) = "✗" /\
  (- (1) <= - (8 # 10) /\ - (8 # 10) < 25 # 100)%Q.
Proof.
  split; [reflexivity|]. split; [discriminate|reflexivity].
Qed.

(** C4, amended.  For every p-value and every significance that is not
    negative, the verdict is strongly-reject iff [p_value < significance/2],
    weakly-reject iff [significance/2 <= p_value < significance],
    weakly-support iff [significance <= p_value < 0.25], and strongly-support
    iff [p_value >= 0.25] and [p_value >= significance]; the last is
    [p_value >= 0.25] alone whenever [significance <= 0.25].  The constant
    0.25 does not depend on [significance]. *)
Theorem evaluate_setting_verdict (p_value significance : Q) :
  (0 <= significance ->
   (fst (evaluate_setting p_value significance) = "✗"
    <-> p_value < significance / 2) /\
   (fst (evaluate_setting p_value significance) = "△"
    <-> significance / 2 <= p_value /\ p_value < significance) /\
   (fst (evaluate_setting p_value significance) = "○"
    <-> significance <= p_value /\ p_value < 25 # 100) /\
   (fst (evaluate_setting p_value significance) = "◎"
    <-> 25 # 100 <= p_value /\ significance <= p_value) /\
   (significance <= 25 # 100 ->
    (fst (evaluate_setting p_value significance) = "◎"
     <-> 25 # 100 <= p_value)))%Q.
Proof.
  intro Hs.
  verdict_cases p_value significance;
    change (significance / 2)%Q with (significance * (1 # 2))%Q in *;
    repeat split; intros;
    repeat match goal with H : _ /\ _ |- _ => destruct H end;
    try discriminate; try lra.
Qed.

Lemma evaluate_setting_verdict_witness :
  fst (evaluate_setting (3 # 100) (5 # 100)) = "△".
Proof.
  apply (proj1 (proj2 (evaluate_setting_verdict (3 # 100) (5 # 100)
                         ltac:(discriminate)))).
  split; [discriminate | reflexivity].
Defined.

Local Close Scope string_scope.

(** ** get_confidence_interval and get_expected_count_range *)

Lemma py_max_Qmax (a b : Q) : py_max a b == Qmax a b.
Proof.
  unfold py_max. destruct (Qltb a b) eqn:E.
  - apply Qltb_lt in E. symmetry. apply Q.max_r. apply Qlt_le_weak. exact E.
  - apply Qltb_ge in E. symmetry. apply Q.max_l. exact E.
Qed.

Lemma py_min_Qmin (a b : Q) : py_min a b == Qmin a b.
Proof.
  unfold py_min. destruct (Qltb b a) eqn:E.
  - apply Qltb_lt in E. symmetry. apply Q.min_r. apply Qlt_le_weak. exact E.
  - apply Qltb_ge in E. symmetry. apply Q.min_l. exact E.
Qed.

Lemma inject_Z_pos_nonzero (n : Z) : (0 < n)%Z -> ~ inject_Z n == 0.
Proof.
  intros H E. unfold Qeq, inject_Z in E. simpl in E. lia.
Qed.

(** C8.  [get_confidence_interval] returns (0, 1) when [n <= 0] and
    otherwise [(max(0, p - z*se), min(1, p + z*se))] with
    [z = norm.ppf((1 + confidence)/2)] and [se = sqrt(p(1-p)/n)];
    [get_expected_count_range] returns that interval with both bounds
    multiplied by [n]. *)
Theorem confidence_interval_normal_approximation
  (norm_ppf np_sqrt : Q -> Q) (p : Q) (n : Z) (confidence : Q) :
  let z := norm_ppf ((1 + confidence) / 2) in
  let se := np_sqrt (p * (1 - p) / inject_Z n) in
  ((n <= 0)%Z ->
   get_confidence_interval norm_ppf np_sqrt p n confidence = Ok (0, 1)) /\
  ((0 < n)%Z ->
   exists lower upper,
     get_confidence_interval norm_ppf np_sqrt p n confidence = Ok (lower, upper) /\
     lower == Qmax 0 (p - z * se) /\ upper == Qmin 1 (p + z * se)) /\
  exists lower upper,
    get_confidence_interval norm_ppf np_sqrt p n confidence = Ok (lower, upper) /\
    get_expected_count_range norm_ppf np_sqrt p n confidence =
      Ok (lower * inject_Z n, upper * inject_Z n).
Proof.
  intros z se.
  assert (Hpos : (0 < n)%Z ->
    get_confidence_interval norm_ppf np_sqrt p n confidence =
      Ok (py_max 0 (p - z * se), py_min 1 (p + z * se))).
  { intro Hn. unfold get_confidence_interval.
    destruct (Z.leb_spec n 0) as [L|_]; [lia|].
    rewrite py_div_ok by discriminate. simpl bind.
    rewrite py_div_ok by (apply inject_Z_pos_nonzero; exact Hn).
    reflexivity. }
  assert (Hneg : (n <= 0)%Z ->
    get_confidence_interval norm_ppf np_sqrt p n confidence = Ok (0, 1)).
  { intro Hn. unfold get_confidence_interval.
    destruct (Z.leb_spec n 0) as [_|L]; [reflexivity|lia]. }
  split; [exact Hneg|]. split.
  - intro Hn. exists (py_max 0 (p - z * se)), (py_min 1 (p + z * se)).
    split; [apply Hpos; exact Hn|].
    split; [apply py_max_Qmax | apply py_min_Qmin].
  - unfold get_expected_count_range.
    destruct (Z_le_gt_dec n 0) as [L|G].
    + exists 0, 1. rewrite Hneg by exact L. split; reflexivity.
    + exists (py_max 0 (p - z * se)), (py_min 1 (p + z * se)).
      rewrite Hpos by lia. split; reflexivity.
Qed.

Lemma confidence_interval_normal_approximation_witness :
  get_confidence_interval (fun _ => 196 # 100) (fun _ => 113 # 10000)
    (15 # 100) 0 default_confidence = Ok (0, 1) /\
  exists lower upper,
    get_confidence_interval (fun _ => 196 # 100) (fun _ => 113 # 10000)
      (15 # 100) 1000 default_confidence = Ok (lower, upper) /\
    lower == 127852 # 1000000 /\ upper == 172148 # 1000000.
Proof.
  split.
  - apply (proj1 (confidence_interval_normal_approximation
                    (fun _ => 196 # 100) (fun _ => 113 # 10000) (15 # 100) 0
                    default_confidence)). lia.
  - destruct (proj1 (proj2 (confidence_interval_normal_approximation
                    (fun _ => 196 # 100) (fun _ => 113 # 10000) (15 # 100) 1000
                    default_confidence)) ltac:(lia)) as (lo & hi & H & Hlo & Hhi).
    exists lo, hi. split; [exact H|].
    split; [rewrite Hlo | rewrite Hhi]; reflexivity.
Defined.

(** ** parse_probability_input *)

Lemma split_without_separator (c : ascii) (s : string) :
  contains c s = false -> split c s = [s].
Proof.
  induction s as [|d r IH]; simpl; intro H.
  - reflexivity.
  - apply orb_false_iff in H. destruct H as [Hd Hr].
    rewrite Hd, (IH Hr). reflexivity.
Qed.

Lemma split_two_has_separator (c : ascii) (s a b : string) :
  split c s = [a; b] -> contains c s = true.
Proof.
  intro H. destruct (contains c s) eqn:E; [reflexivity|].
  rewrite (split_without_separator c s E) in H. discriminate H.
Qed.

Section ParseRules.

Variable float : string -> result Q.
Variable input_str : string.

Let text := strip input_str.

Lemma parse_percent (x : Q) :
  endswith text "%" = true ->
  float (drop_last text) = Ok x ->
  parse_probability_input float input_str = Ok (x / 100).
Proof.
  intros Hp Hx. unfold parse_probability_input. fold text.
  rewrite Hp, Hx. reflexivity.
Qed.

Lemma parse_fraction (a b : string) (x y : Q) :
  endswith text "%" = false ->
  split "/" text = [a; b] ->
  float a = Ok x -> float b = Ok y -> ~ y == 0 ->
  parse_probability_input float input_str = Ok (x / y).
Proof.
  intros Hp Hs Ha Hb Hy. unfold parse_probability_input. fold text.
  rewrite Hp, (split_two_has_separator _ _ _ _ Hs), Hs, Ha, Hb. simpl bind.
  pose proof Hy as Hy'. apply Qeq_bool_false in Hy'. rewrite Hy'. simpl negb.
  cbv iota. apply py_div_ok. exact Hy.
Qed.

Lemma parse_decimal (v : Q) :
  endswith text "%" = false ->
  contains "/" text = false ->
  float text = Ok v ->
  (1 < v -> parse_probability_input float input_str = Ok (1 / v)) /\
  (v <= 1 -> parse_probability_input float input_str = Ok v).
Proof.
  intros Hp Hc Hv. unfold parse_probability_input. fold text.
  rewrite Hp, Hc, Hv. simpl bind. split; intro H.
  - rewrite (proj2 (Qltb_lt 1 v) H). apply py_div_ok.
    intro E. rewrite E in H. discriminate H.
  - rewrite (proj2 (Qltb_ge 1 v) H). reflexivity.
Qed.

End ParseRules.

(** C7.  On the trimmed input, in this order: a trailing percent sign
    divides the numeric prefix by 100; a text [a/b] with two numeric parts
    and [b <> 0] gives [a/b]; otherwise a plain decimal [v] gives [1/v] when
    [v > 1] and [v] when [v <= 1].  Hence ["1/6.5"], ["6.5"] and
    ["15.3846%"] agree within 1e-3, all about 0.15385, and ["0.2"] is
    0.2. *)
Theorem parse_probability_input_rules :
  (forall (float : string -> result Q) (input_str : string),
     let text := strip input_str in
     (forall x,
        endswith text "%" = true ->
        float (drop_last text) = Ok x ->
        parse_probability_input float input_str = Ok (x / 100)) /\
     (forall a b x y,
        endswith text "%" = false ->
        split "/" text = [a; b] ->
        float a = Ok x -> float b = Ok y -> ~ y == 0 ->
        parse_probability_input float input_str = Ok (x / y)) /\
     (forall v,
        endswith text "%" = false ->
        contains "/" text = false ->
        float text = Ok v ->
        (1 < v -> parse_probability_input float input_str = Ok (1 / v)) /\
        (v <= 1 -> parse_probability_input float input_str = Ok v))) /\
  (exists a b c,
     parse_probability_input float_literal "1/6.5" = Ok a /\
     parse_probability_input float_literal "6.5" = Ok b /\
     parse_probability_input float_literal "15.3846%" = Ok c /\
     Qabs (a - b) < 1 # 1000 /\ Qabs (b - c) < 1 # 1000 /\
     Qabs (a - c) < 1 # 1000 /\
     Qabs (a - (15385 # 100000)) < 1 # 1000 /\
     Qabs (b - (15385 # 100000)) < 1 # 1000 /\
     Qabs (c - (15385 # 100000)) < 1 # 1000) /\
  (exists v, parse_probability_input float_literal "0.2" = Ok v /\ v == 2 # 10).
Proof.
  split; [|split].
  - intros float input_str text. split; [|split].
    + intros x. apply parse_percent.
    + intros a b x y. apply parse_fraction.
    + intros v. apply parse_decimal.
  - exists (10 # 65), (10 # 65), (153846 # 1000000).
    repeat split; vm_compute; reflexivity.
  - exists (2 # 10). split; vm_compute; reflexivity.
Qed.

Lemma parse_probability_input_rules_witness :
  parse_probability_input float_literal " 25% " = Ok (25 / 100) /\
  parse_probability_input float_literal "1/6.5" = Ok (1 / (65 / 10)) /\
  parse_probability_input float_literal "6.5" = Ok (1 / (65 / 10)) /\
  parse_probability_input float_literal "0.2" = Ok (2 / 10).
Proof.
  pose proof (proj1 parse_probability_input_rules float_literal) as R.
  split; [|split; [|split]].
  - apply (proj1 (R " 25% "%string)); reflexivity.
  - apply (proj1 (proj2 (R "1/6.5"%string)) "1"%string "6.5"%string);
      try reflexivity. discriminate.
  - apply (proj2 (proj2 (R "6.5"%string)) (65 / 10)); reflexivity.
  - apply (proj2 (proj2 (R "0.2"%string)) (2 / 10)); try reflexivity.
    discriminate.
Defined.

(** ** The binomial distribution *)

Lemma binom_zero (n k : nat) : (n < k)%nat -> binom n k = 0%nat.
Proof.
  revert k. induction n as [|n IH]; intros k H.
  - destruct k; [lia|reflexivity].
  - destruct k as [|k]; [lia|]. simpl.
    rewrite (IH k) by lia. rewrite (IH (S k)) by lia. reflexivity.
Qed.

Lemma binom_pos (n k : nat) : (k <= n)%nat -> (0 < binom n k)%nat.
Proof.
  revert k. induction n as [|n IH]; intros k H.
  - destruct k; [simpl; lia|lia].
  - destruct k as [|k]; [simpl; lia|]. simpl.
    specialize (IH k ltac:(lia)). lia.
Qed.

Lemma binom_succ (n k : nat) :
  binom (S n) (S k) = (binom n k + binom n (S k))%nat.
Proof. reflexivity. Qed.

(** The absorption identity: [(k+1) C(n,k+1) = (n-k) C(n,k)]. *)
Lemma binom_absorb (n k : nat) :
  (S k * binom n (S k) = (n - k) * binom n k)%nat.
Proof.
  revert k. induction n as [|n IH]; intro k.
  - simpl. lia.
  - destruct k as [|k].
    + rewrite binom_succ. pose proof (IH 0%nat) as H0.
      replace (binom n 0) with 1%nat in * by (destruct n; reflexivity).
      replace (binom (S n) 0) with 1%nat by reflexivity. lia.
    + rewrite binom_succ, (binom_succ n k).
      pose proof (IH (S k)) as H1. pose proof (IH k) as H2.
      destruct (Nat.le_gt_cases (S k) n) as [L|G].
      * replace (S n - S k)%nat with (S (n - S k)) by lia.
        replace (n - k)%nat with (S (n - S k)) in H2 by lia. nia.
      * rewrite (binom_zero n (S (S k))) by lia.
        destruct (Nat.eq_dec n k) as [->|Hne].
        -- rewrite (binom_zero k (S k)) by lia.
           replace (S k - S k)%nat with 0%nat by lia. lia.
        -- rewrite (binom_zero n (S k)) in * by lia.
           replace (S n - S k)%nat with 0%nat by lia. lia.
Qed.

Lemma qpow_nonneg (x : Q) (e : nat) : 0 <= x -> 0 <= qpow x e.
Proof.
  intro H. induction e as [|e IH]; simpl.
  - discriminate.
  - apply Qmult_le_0_compat; assumption.
Qed.

Lemma qpow_pos (x : Q) (e : nat) : 0 < x -> 0 < qpow x e.
Proof.
  intro H. induction e as [|e IH]; simpl.
  - reflexivity.
  - apply Qmult_lt_0_compat; assumption.
Qed.

Lemma inject_nat_nonneg (m : nat) : 0 <= inject_Z (Z.of_nat m).
Proof.
  change 0 with (inject_Z 0). rewrite <- Zle_Qle. lia.
Qed.

Lemma pmf_nat_nonneg (n k : nat) (p : Q) :
  0 <= p -> p <= 1 -> 0 <= pmf_nat n k p.
Proof.
  intros H0 H1. unfold pmf_nat.
  repeat apply Qmult_le_0_compat.
  - apply inject_nat_nonneg.
  - apply qpow_nonneg. exact H0.
  - apply qpow_nonneg. lra.
Qed.

Lemma pmf_nat_pos (n k : nat) (p : Q) :
  (k <= n)%nat -> 0 < p -> p < 1 -> 0 < pmf_nat n k p.
Proof.
  intros Hk H0 H1. unfold pmf_nat.
  repeat apply Qmult_lt_0_compat.
  - change 0 with (inject_Z 0). rewrite <- Zlt_Qlt.
    pose proof (binom_pos n k Hk). lia.
  - apply qpow_pos. exact H0.
  - apply qpow_pos. lra.
Qed.

(** Pascal's rule, on the probabilities. *)
Lemma pmf_nat_first (n : nat) (p : Q) :
  pmf_nat (S n) 0 p == (1 - p) * pmf_nat n 0 p.
Proof.
  unfold pmf_nat. rewrite !Nat.sub_0_r.
  replace (binom (S n) 0) with 1%nat by reflexivity.
  replace (binom n 0) with 1%nat by (destruct n; reflexivity).
  simpl qpow. ring.
Qed.

Lemma pmf_nat_step (n k : nat) (p : Q) :
  pmf_nat (S n) (S k) p == p * pmf_nat n k p + (1 - p) * pmf_nat n (S k) p.
Proof.
  unfold pmf_nat. rewrite binom_succ, Nat2Z.inj_add, inject_Z_plus.
  replace (S n - S k)%nat with (n - k)%nat by lia.
  destruct (Nat.le_gt_cases (S k) n) as [L|G].
  - replace (n - k)%nat with (S (n - S k)) by lia. simpl qpow. ring.
  - rewrite (binom_zero n (S k)) by lia. simpl qpow.
    change (inject_Z (Z.of_nat 0)) with 0. ring.
Qed.

Lemma sumf_ext (f g : nat -> Q) (m : nat) :
  (forall j, (j < m)%nat -> f j == g j) -> sumf f m == sumf g m.
Proof.
  induction m as [|m IH]; intro H; simpl.
  - reflexivity.
  - rewrite IH by (intros j Hj; apply H; lia). rewrite (H m) by lia.
    reflexivity.
Qed.

Lemma sumf_shift (f : nat -> Q) (m : nat) :
  sumf f (S m) == f 0%nat + sumf (fun j => f (S j)) m.
Proof.
  induction m as [|m IH].
  - simpl. ring.
  - change (sumf f (S (S m))) with (sumf f (S m) + f (S m)).
    rewrite IH. simpl. ring.
Qed.

Lemma sumf_linear (a b : Q) (f g : nat -> Q) (m : nat) :
  sumf (fun j => a * f j + b * g j) m == a * sumf f m + b * sumf g m.
Proof.
  induction m as [|m IH]; simpl.
  - ring.
  - rewrite IH. ring.
Qed.

Lemma py_sum_seq (f : nat -> Q) (m : nat) :
  py_sum (map f (seq 0 m)) == sumf f m.
Proof.
  induction m as [|m IH].
  - reflexivity.
  - rewrite seq_S, map_app, py_sum_app, IH. simpl map.
    rewrite py_sum_cons, py_sum_nil. simpl. ring.
Qed.

(** The probabilities of all outcomes add up to 1 (the binomial theorem
    for [p + (1 - p)]); outcomes beyond [n] have probability 0. *)
Lemma pmf_nat_total (n m : nat) (p : Q) :
  (n <= m)%nat -> sumf (fun j => pmf_nat n j p) (S m) == 1.
Proof.
  revert m. induction n as [|n IH]; intros m H.
  - rewrite sumf_shift.
    rewrite (sumf_ext _ (fun _ => 0)).
    + assert (Z0 : sumf (fun _ => 0) m == 0).
      { clear. induction m as [|m IH]; simpl; [reflexivity|rewrite IH; ring]. }
      rewrite Z0. unfold pmf_nat. simpl. ring.
    + intros j _. unfold pmf_nat. simpl. ring.
  - destruct m as [|m]; [lia|].
    rewrite sumf_shift.
    rewrite (sumf_ext _ (fun j => p * pmf_nat n j p + (1 - p) * pmf_nat n (S j) p))
      by (intros j _; apply pmf_nat_step).
    rewrite sumf_linear, pmf_nat_first.
    pose proof (IH m ltac:(lia)) as H1.
    pose proof (IH (S m) ltac:(lia)) as H2.
    rewrite sumf_shift in H2.
    rewrite H1.
    assert (E : sumf (fun j => pmf_nat n (S j) p) (S m) == 1 - pmf_nat n 0 p).
    { rewrite <- H2. ring. }
    rewrite E. ring.
Qed.

(** ** The two-sided p-value *)

Lemma outcomes_spec (n j : Z) :
  (0 <= n)%Z -> (In j (outcomes n) <-> (0 <= j <= n)%Z).
Proof.
  intro Hn. unfold outcomes. rewrite in_map_iff. split.
  - intros (i & <- & Hi). apply in_seq in Hi. lia.
  - intro H. exists (Z.to_nat j). split; [lia|]. apply in_seq. lia.
Qed.

Lemma outcomes_NoDup (n : Z) : NoDup (outcomes n).
Proof.
  unfold outcomes. apply Finite.Injective_map_NoDup.
  - intros a b H. lia.
  - apply seq_NoDup.
Qed.

Lemma binom_pmf_nat (n : Z) (i : nat) (p : Q) :
  (Z.of_nat i <= n)%Z ->
  binom_pmf (Z.of_nat i) n p = pmf_nat (Z.to_nat n) i p.
Proof.
  intro H. unfold binom_pmf.
  rewrite (proj2 (Z.leb_le 0 (Z.of_nat i))) by lia.
  rewrite (proj2 (Z.leb_le (Z.of_nat i) n)) by lia.
  simpl. rewrite Nat2Z.id. reflexivity.
Qed.

Lemma binom_pmf_nonneg (k n : Z) (p : Q) :
  0 <= p -> p <= 1 -> 0 <= binom_pmf k n p.
Proof.
  intros H0 H1. unfold binom_pmf.
  destruct ((0 <=? k)%Z && (k <=? n)%Z).
  - apply pmf_nat_nonneg; assumption.
  - apply Qle_refl.
Qed.

Lemma binom_pmf_total (n : Z) (p : Q) :
  (0 <= n)%Z -> py_sum (map (fun j => binom_pmf j n p) (outcomes n)) == 1.
Proof.
  intro Hn. unfold outcomes. rewrite map_map.
  rewrite (map_ext_in _ (fun i => pmf_nat (Z.to_nat n) i p)).
  - rewrite py_sum_seq. apply pmf_nat_total. lia.
  - intros i Hi. apply in_seq in Hi. apply binom_pmf_nat. lia.
Qed.

(** Summing fewer non-negative terms gives less. *)
Lemma py_sum_filter_le {A : Type} (f : A -> Q) (c1 c2 : A -> bool) (l : list A) :
  (forall x, In x l -> 0 <= f x) ->
  (forall x, In x l -> c2 x = true -> c1 x = true) ->
  py_sum (map f (filter c2 l)) <= py_sum (map f (filter c1 l)).
Proof.
  induction l as [|x l IH]; intros Hf Hc.
  - apply Qle_refl.
  - assert (IH' : py_sum (map f (filter c2 l)) <= py_sum (map f (filter c1 l))).
    { apply IH; intros y Hy; [apply Hf|apply Hc]; right; exact Hy. }
    assert (Hx : 0 <= f x) by (apply Hf; left; reflexivity).
    simpl filter. destruct (c2 x) eqn:E2.
    + rewrite (Hc x (or_introl eq_refl) E2). simpl map.
      rewrite !py_sum_cons. lra.
    + destruct (c1 x); [simpl map; rewrite py_sum_cons; lra | exact IH'].
Qed.

Lemma filter_all {A : Type} (l : list A) : filter (fun _ => true) l = l.
Proof.
  induction l as [|x l IH]; simpl; [reflexivity|rewrite IH; reflexivity].
Qed.

Lemma two_sided_pvalue_bounds (k n : Z) (p : Q) :
  (0 <= n)%Z -> 0 <= p -> p <= 1 ->
  0 <= two_sided_pvalue k n p /\ two_sided_pvalue k n p <= 1.
Proof.
  intros Hn H0 H1. unfold two_sided_pvalue. split.
  - apply py_sum_nonneg. intros x Hx. apply in_map_iff in Hx.
    destruct Hx as (j & <- & _). apply binom_pmf_nonneg; assumption.
  - rewrite <- (binom_pmf_total n p Hn).
    rewrite <- (filter_all (outcomes n)) at 2.
    apply py_sum_filter_le.
    + intros x _. apply binom_pmf_nonneg; assumption.
    + reflexivity.
Qed.

(** A less probable observation has a smaller p-value. *)
Lemma two_sided_pvalue_mono (k1 k2 n : Z) (p : Q) :
  0 <= p -> p <= 1 ->
  binom_pmf k2 n p <= binom_pmf k1 n p ->
  two_sided_pvalue k2 n p <= two_sided_pvalue k1 n p.
Proof.
  intros H0 H1 H. unfold two_sided_pvalue. apply py_sum_filter_le.
  - intros x _. apply binom_pmf_nonneg; assumption.
  - intros x _ Hx. apply Qle_bool_iff in Hx. apply Qle_bool_iff.
    eapply Qle_trans; eassumption.
Qed.

(** ** The shape of the distribution: one step along a tail *)

Lemma pmf_nat_ratio (n k : nat) (p : Q) :
  (k < n)%nat ->
  inject_Z (Z.of_nat (S k)) * (1 - p) * pmf_nat n (S k) p ==
  inject_Z (Z.of_nat (n - k)) * p * pmf_nat n k p.
Proof.
  intro H. unfold pmf_nat.
  replace (n - k)%nat with (S (n - S k)) at 2 by lia. simpl qpow.
  assert (E : inject_Z (Z.of_nat (S k)) * inject_Z (Z.of_nat (binom n (S k))) ==
              inject_Z (Z.of_nat (n - k)) * inject_Z (Z.of_nat (binom n k))).
  { rewrite <- !inject_Z_mult, <- !Nat2Z.inj_mul, binom_absorb. reflexivity. }
  transitivity (inject_Z (Z.of_nat (S k)) * inject_Z (Z.of_nat (binom n (S k))) *
                (p * qpow p k * ((1 - p) * qpow (1 - p) (n - S k)))); [ring|].
  rewrite E. ring.
Qed.

Lemma inject_nat_sub (n k : nat) :
  (k <= n)%nat ->
  inject_Z (Z.of_nat (n - k)) == inject_Z (Z.of_nat n) - inject_Z (Z.of_nat k).
Proof.
  intro H. rewrite Nat2Z.inj_sub by exact H.
  unfold Z.sub. rewrite inject_Z_plus, inject_Z_opp. ring.
Qed.

Lemma inject_nat_succ (k : nat) :
  inject_Z (Z.of_nat (S k)) == inject_Z (Z.of_nat k) + 1.
Proof.
  rewrite Nat2Z.inj_succ. unfold Z.succ. rewrite inject_Z_plus. reflexivity.
Qed.

(** Above the mean the probabilities do not increase. *)
Lemma pmf_nat_upper_step (n k : nat) (p : Q) :
  (k < n)%nat -> 0 < p -> p < 1 ->
  inject_Z (Z.of_nat n) * p <= inject_Z (Z.of_nat k) ->
  pmf_nat n (S k) p <= pmf_nat n k p.
Proof.
  intros Hk H0 H1 Hm.
  pose proof (pmf_nat_ratio n k p Hk) as R.
  pose proof (pmf_nat_nonneg n k p ltac:(lra) ltac:(lra)) as Y.
  rewrite inject_nat_sub in R by lia. rewrite inject_nat_succ in R.
  pose proof (inject_nat_nonneg k) as K.
  set (N := inject_Z (Z.of_nat n)) in *. set (c := inject_Z (Z.of_nat k)) in *.
  set (x := pmf_nat n (S k) p) in *. set (y := pmf_nat n k p) in *.
  assert (A : 0 < (c + 1) * (1 - p)) by (apply Qmult_lt_0_compat; lra).
  apply (Qmult_le_l _ _ _ A). rewrite R.
  assert (B : (N - c) * p <= (c + 1) * (1 - p)) by nra.
  apply Qmult_le_compat_r; assumption.
Qed.

(** Below the mean they do not decrease. *)
Lemma pmf_nat_lower_step (n k : nat) (p : Q) :
  (k < n)%nat -> 0 < p -> p < 1 ->
  inject_Z (Z.of_nat (S k)) <= inject_Z (Z.of_nat n) * p ->
  pmf_nat n k p <= pmf_nat n (S k) p.
Proof.
  intros Hk H0 H1 Hm.
  pose proof (pmf_nat_ratio n k p Hk) as R.
  pose proof (pmf_nat_nonneg n k p ltac:(lra) ltac:(lra)) as Y.
  rewrite inject_nat_sub in R by lia. rewrite inject_nat_succ in R, Hm.
  pose proof (inject_nat_nonneg k) as K.
  set (N := inject_Z (Z.of_nat n)) in *. set (c := inject_Z (Z.of_nat k)) in *.
  set (x := pmf_nat n (S k) p) in *. set (y := pmf_nat n k p) in *.
  assert (A : 0 < (c + 1) * (1 - p)) by (apply Qmult_lt_0_compat; lra).
  apply (Qmult_le_l _ _ _ A). rewrite R.
  assert (B : (c + 1) * (1 - p) <= (N - c) * p) by nra.
  apply Qmult_le_compat_r; assumption.
Qed.

Lemma pmf_nat_upper_tail (n k d : nat) (p : Q) :
  (k + d <= n)%nat -> 0 < p -> p < 1 ->
  inject_Z (Z.of_nat n) * p <= inject_Z (Z.of_nat k) ->
  pmf_nat n (k + d) p <= pmf_nat n k p.
Proof.
  intros Hk H0 H1 Hm. induction d as [|d IH].
  - rewrite Nat.add_0_r. apply Qle_refl.
  - apply Qle_trans with (pmf_nat n (k + d) p); [|apply IH; lia].
    rewrite Nat.add_succ_r. apply pmf_nat_upper_step; try assumption; [lia|].
    apply Qle_trans with (1 := Hm). rewrite <- Zle_Qle. lia.
Qed.

Lemma pmf_nat_lower_tail (n k d : nat) (p : Q) :
  0 < p -> p < 1 ->
  inject_Z (Z.of_nat (k + d)) <= inject_Z (Z.of_nat n) * p ->
  pmf_nat n k p <= pmf_nat n (k + d) p.
Proof.
  intros H0 H1. induction d as [|d IH]; intro Hm.
  - rewrite Nat.add_0_r. apply Qle_refl.
  - assert (Hlt : inject_Z (Z.of_nat (k + S d)) < inject_Z (Z.of_nat n)).
    { apply Qle_lt_trans with (1 := Hm).
      assert (Hc : 1 <= inject_Z (Z.of_nat (k + S d))).
      { change 1 with (inject_Z 1). rewrite <- Zle_Qle. lia. }
      set (N := inject_Z (Z.of_nat n)) in *.
      assert (HN : 0 < N).
      { destruct (Qlt_le_dec 0 N) as [L|L]; [exact L|exfalso].
        assert (N * p <= 0) by nra. lra. }
      assert (0 < N * (1 - p)) by (apply Qmult_lt_0_compat; lra).
      lra. }
    rewrite <- Zlt_Qlt in Hlt.
    apply Qle_trans with (pmf_nat n (k + d) p).
    + apply IH. apply Qle_trans with (2 := Hm). rewrite <- Zle_Qle. lia.
    + rewrite Nat.add_succ_r. apply pmf_nat_lower_step; try assumption; [lia|].
      rewrite <- Nat.add_succ_r. exact Hm.
Qed.

Lemma binom_pmf_to_nat (k n : Z) (p : Q) :
  (0 <= k <= n)%Z -> binom_pmf k n p = pmf_nat (Z.to_nat n) (Z.to_nat k) p.
Proof.
  intro H. rewrite <- (Z2Nat.id k) at 1 by lia. apply binom_pmf_nat. lia.
Qed.

Lemma inject_to_nat (n : Z) :
  (0 <= n)%Z -> inject_Z (Z.of_nat (Z.to_nat n)) = inject_Z n.
Proof.
  intro H. rewrite Z2Nat.id by exact H. reflexivity.
Qed.

Lemma binom_pmf_upper_tail (n k1 k2 : Z) (p : Q) :
  0 < p -> p < 1 -> (0 <= k1)%Z -> (k1 <= k2 <= n)%Z ->
  inject_Z n * p <= inject_Z k1 ->
  binom_pmf k2 n p <= binom_pmf k1 n p.
Proof.
  intros H0 H1 Hk1 Hk Hm.
  rewrite !binom_pmf_to_nat by lia.
  replace (Z.to_nat k2) with (Z.to_nat k1 + Z.to_nat (k2 - k1))%nat by lia.
  apply pmf_nat_upper_tail; try assumption; [lia|].
  rewrite !inject_to_nat by lia. exact Hm.
Qed.

Lemma binom_pmf_lower_tail (n k1 k2 : Z) (p : Q) :
  0 < p -> p < 1 -> (0 <= n)%Z -> (0 <= k2 <= k1)%Z -> (k1 <= n)%Z ->
  inject_Z k1 <= inject_Z n * p ->
  binom_pmf k2 n p <= binom_pmf k1 n p.
Proof.
  intros H0 H1 Hn Hk Hk1 Hm.
  rewrite !binom_pmf_to_nat by lia.
  replace (Z.to_nat k1) with (Z.to_nat k2 + Z.to_nat (k1 - k2))%nat by lia.
  apply pmf_nat_lower_tail; try assumption.
  replace (Z.to_nat k2 + Z.to_nat (k1 - k2))%nat with (Z.to_nat k1) by lia.
  rewrite !inject_to_nat by lia. exact Hm.
Qed.

Lemma binomial_p_value_in_range (n k : Z) (p : Q) :
  (1 <= n)%Z -> (0 <= k <= n)%Z -> 0 < p -> p < 1 ->
  binomial_p_value n k p = Ok (two_sided_pvalue k n p).
Proof.
  intros Hn Hk H0 H1. unfold binomial_p_value.
  rewrite (proj2 (guard_false n p)) by auto.
  unfold binomtest.
  destruct (Z.ltb_spec k 0) as [L|_]; [lia|].
  destruct (Z.ltb_spec n 1) as [L|_]; [lia|].
  destruct (Z.ltb_spec n k) as [L|_]; [lia|].
  rewrite (proj2 (Qle_bool_iff 0 p)) by lra.
  rewrite (proj2 (Qle_bool_iff p 1)) by lra.
  reflexivity.
Qed.

(** C1.  For [n >= 1], [0 <= k <= n] and [p] strictly inside (0,1),
    [binomial_p_value(n, k, p)] is the exact two-sided binomial p-value:
    the sum of the binomial PMF over the outcome counts [j] of [0..n],
    each taken once, whose PMF is at most the PMF at the observed [k];
    the result lies in [0, 1]. *)
Theorem binomial_p_value_two_sided (n k : Z) (p : Q) :
  (1 <= n)%Z -> (0 <= k <= n)%Z -> 0 < p -> p < 1 ->
  let extreme :=
    filter (fun j => Qle_bool (binom_pmf j n p) (binom_pmf k n p)) (outcomes n) in
  exists v,
    binomial_p_value n k p = Ok v /\
    v = py_sum (map (fun j => binom_pmf j n p) extreme) /\
    (forall j, In j extreme <->
               (0 <= j <= n)%Z /\ binom_pmf j n p <= binom_pmf k n p) /\
    NoDup extreme /\
    0 <= v /\ v <= 1.
Proof.
  intros Hn Hk H0 H1 extreme.
  exists (two_sided_pvalue k n p). split; [|split; [|split; [|split]]].
  - apply binomial_p_value_in_range; assumption.
  - reflexivity.
  - intro j. unfold extreme. rewrite filter_In, outcomes_spec by lia.
    rewrite Qle_bool_iff. reflexivity.
  - apply NoDup_filter. apply outcomes_NoDup.
  - apply two_sided_pvalue_bounds; [lia|lra|lra].
Qed.

Lemma binomial_p_value_two_sided_witness :
  exists v, binomial_p_value 4 0 (1 # 3) = Ok v /\ 0 <= v /\ v <= 1.
Proof.
  destruct (binomial_p_value_two_sided 4 0 (1 # 3))
    as (v & Hv & _ & _ & _ & Hb); try reflexivity; try lia.
  exists v. split; [exact Hv|exact Hb].
Defined.

(** C5.  For [p] strictly inside (0,1) and [n >= 1] the p-value does not
    increase as [k] moves away from [n*p] within one tail: for
    [n*p <= k1 <= k2 <= n], and for [0 <= k2 <= k1 <= n*p],
    [binomial_p_value(n, k2, p) <= binomial_p_value(n, k1, p)]. *)
Theorem binomial_p_value_monotone_in_tail (n k1 k2 : Z) (p : Q) :
  (1 <= n)%Z -> 0 < p -> p < 1 ->
  (inject_Z n * p <= inject_Z k1 /\ (k1 <= k2 <= n)%Z) \/
  ((0 <= k2 <= k1)%Z /\ inject_Z k1 <= inject_Z n * p) ->
  exists v1 v2,
    binomial_p_value n k1 p = Ok v1 /\
    binomial_p_value n k2 p = Ok v2 /\
    v2 <= v1.
Proof.
  intros Hn H0 H1 Htail.
  assert (HN : 0 < inject_Z n).
  { change 0 with (inject_Z 0). rewrite <- Zlt_Qlt. lia. }
  assert (Hnp : 0 < inject_Z n * p) by (apply Qmult_lt_0_compat; assumption).
  assert (Hnq : 0 < inject_Z n * (1 - p)) by (apply Qmult_lt_0_compat; lra).
  assert (Hr : (0 <= k1 <= n)%Z /\ (0 <= k2 <= n)%Z /\
               binom_pmf k2 n p <= binom_pmf k1 n p).
  { destruct Htail as [[Hm Hk] | [Hk Hm]].
    - assert (Hk1 : (0 <= k1)%Z).
      { assert (L : (0 < k1)%Z); [|lia].
        rewrite Zlt_Qlt. change (inject_Z 0) with 0. lra. }
      split; [lia|]. split; [lia|].
      apply binom_pmf_upper_tail; assumption.
    - assert (Hk1 : (k1 <= n)%Z).
      { rewrite Zle_Qle. lra. }
      split; [lia|]. split; [lia|].
      apply binom_pmf_lower_tail; try assumption. lia. }
  destruct Hr as (R1 & R2 & Hpmf).
  exists (two_sided_pvalue k1 n p), (two_sided_pvalue k2 n p).
  split; [apply binomial_p_value_in_range; assumption|].
  split; [apply binomial_p_value_in_range; assumption|].
  apply two_sided_pvalue_mono; [lra|lra|exact Hpmf].
Qed.

Lemma binomial_p_value_monotone_in_tail_witness :
  exists v1 v2,
    binomial_p_value 6 4 (1 # 2) = Ok v1 /\
    binomial_p_value 6 5 (1 # 2) = Ok v2 /\
    v2 <= v1.
Proof.
  apply binomial_p_value_monotone_in_tail.
  - lia.
  - reflexivity.
  - reflexivity.
  - left. split; [discriminate | lia].
Defined.

(** * Further properties of statistics_utils.py *)

(** ** The confidence interval and the count range *)

Section IntervalFacts.

Variable norm_ppf : Q -> Q.
Variable np_sqrt : Q -> Q.

Lemma get_confidence_interval_nonpos (p : Q) (n : Z) (confidence : Q) :
  (n <= 0)%Z ->
  get_confidence_interval norm_ppf np_sqrt p n confidence = Ok (0, 1).
Proof.
  intro Hn. unfold get_confidence_interval.
  destruct (Z.leb_spec n 0) as [_|L]; [reflexivity|lia].
Qed.

Lemma get_confidence_interval_pos (p : Q) (n : Z) (confidence : Q) :
  (0 < n)%Z ->
  get_confidence_interval norm_ppf np_sqrt p n confidence =
    Ok (py_max 0 (p - norm_ppf ((1 + confidence) / 2)
                      * np_sqrt (p * (1 - p) / inject_Z n)),
        py_min 1 (p + norm_ppf ((1 + confidence) / 2)
                      * np_sqrt (p * (1 - p) / inject_Z n))).
Proof.
  intro Hn. unfold get_confidence_interval.
  destruct (Z.leb_spec n 0) as [L|_]; [lia|].
  rewrite py_div_ok by discriminate. simpl bind.
  rewrite py_div_ok by (apply inject_Z_pos_nonzero; exact Hn).
  reflexivity.
Qed.

Lemma py_max_lower (a b : Q) : a <= py_max a b /\ b <= py_max a b.
Proof.
  unfold py_max. destruct (Qltb a b) eqn:E.
  - apply Qltb_lt in E. split; lra.
  - apply Qltb_ge in E. split; lra.
Qed.

Lemma py_min_upper (a b : Q) : py_min a b <= a /\ py_min a b <= b.
Proof.
  unfold py_min. destruct (Qltb b a) eqn:E.
  - apply Qltb_lt in E. split; lra.
  - apply Qltb_ge in E. split; lra.
Qed.

Lemma get_confidence_interval_cases (p : Q) (n : Z) (confidence : Q) :
  exists lo hi,
    get_confidence_interval norm_ppf np_sqrt p n confidence = Ok (lo, hi) /\
    0 <= lo /\ hi <= 1 /\ ((n <= 0)%Z -> lo = 0 /\ hi = 1).
Proof.
  destruct (Z_le_gt_dec n 0) as [L|G].
  - exists 0, 1. rewrite get_confidence_interval_nonpos by exact L.
    split; [reflexivity|]. split; [discriminate|]. split; [discriminate|].
    intros _. split; reflexivity.
  - eexists _, _. rewrite get_confidence_interval_pos by lia.
    split; [reflexivity|]. split; [apply py_max_lower|].
    split; [apply py_min_upper|]. intro L. lia.
Qed.

(** X1.  Whatever the arguments, [get_confidence_interval] returns a pair
    whose lower bound is at least 0 and whose upper bound is at most 1. *)
Theorem confidence_interval_clamped (p : Q) (n : Z) (confidence : Q) :
  exists lo hi,
    get_confidence_interval norm_ppf np_sqrt p n confidence = Ok (lo, hi) /\
    0 <= lo /\ hi <= 1.
Proof.
  destruct (get_confidence_interval_cases p n confidence)
    as (lo & hi & E & Hlo & Hhi & _).
  exists lo, hi. split; [exact E|]. split; assumption.
Qed.

(** X2.  For [n > 0], a probability [p] in [0, 1] and a half-width
    [z * se] that is not negative, the interval contains [p], and the count
    range of [get_expected_count_range] contains the expected count
    [p * n]. *)
Theorem confidence_interval_contains_p (p : Q) (n : Z) (confidence : Q) :
  (0 < n)%Z -> 0 <= p -> p <= 1 ->
  0 <= norm_ppf ((1 + confidence) / 2) * np_sqrt (p * (1 - p) / inject_Z n) ->
  (exists lo hi,
     get_confidence_interval norm_ppf np_sqrt p n confidence = Ok (lo, hi) /\
     lo <= p /\ p <= hi) /\
  (exists lo hi,
     get_expected_count_range norm_ppf np_sqrt p n confidence = Ok (lo, hi) /\
     lo <= p * inject_Z n /\ p * inject_Z n <= hi).
Proof.
  intros Hn H0 H1 Hw.
  pose proof (get_confidence_interval_pos p n confidence Hn) as E.
  set (w := norm_ppf ((1 + confidence) / 2)
            * np_sqrt (p * (1 - p) / inject_Z n)) in *.
  assert (Hlo : py_max 0 (p - w) <= p).
  { unfold py_max. destruct (Qltb 0 (p - w)); lra. }
  assert (Hhi : p <= py_min 1 (p + w)).
  { unfold py_min. destruct (Qltb (p + w) 1); lra. }
  assert (HN : 0 <= inject_Z n).
  { change 0 with (inject_Z 0). rewrite <- Zle_Qle. lia. }
  split.
  - eexists _, _. split; [exact E|]. split; assumption.
  - unfold get_expected_count_range. rewrite E. simpl bind.
    eexists _, _. split; [reflexivity|].
    split; apply Qmult_le_compat_r; assumption.
Qed.

(** X3.  For [n >= 0] the count range lies within [0, n]; for [n <= 0] it
    is the pair [(0, n)], whose upper end is below its lower end when [n]
    is negative. *)
Theorem expected_count_range_within_trials (p : Q) (n : Z) (confidence : Q) :
  exists lo hi,
    get_expected_count_range norm_ppf np_sqrt p n confidence = Ok (lo, hi) /\
    ((0 <= n)%Z -> 0 <= lo /\ hi <= inject_Z n) /\
    ((n <= 0)%Z -> lo == 0 /\ hi == inject_Z n).
Proof.
  destruct (get_confidence_interval_cases p n confidence)
    as (lo & hi & E & Hlo & Hhi & Hdeg).
  unfold get_expected_count_range. rewrite E. simpl bind.
  eexists _, _. split; [reflexivity|]. split.
  - intro Hn.
    assert (HN : 0 <= inject_Z n).
    { change 0 with (inject_Z 0). rewrite <- Zle_Qle. exact Hn. }
    split.
    + apply Qmult_le_0_compat; assumption.
    + rewrite <- (Qmult_1_l (inject_Z n)) at 2.
      apply Qmult_le_compat_r; assumption.
  - intro Hn. destruct (Hdeg Hn) as [-> ->]. split; ring.
Qed.

End IntervalFacts.

Lemma confidence_interval_contains_p_witness :
  exists lo hi,
    get_confidence_interval (fun _ => 196 # 100) (fun _ => 113 # 10000)
      (15 # 100) 1000 default_confidence = Ok (lo, hi) /\
    lo <= 15 # 100 /\ 15 # 100 <= hi.
Proof.
  apply (proj1 (confidence_interval_contains_p
                  (fun _ => 196 # 100) (fun _ => 113 # 10000)
                  (15 # 100) 1000 default_confidence
                  ltac:(lia) ltac:(discriminate) ltac:(discriminate)
                  ltac:(discriminate))).
Defined.

Lemma expected_count_range_within_trials_witness :
  exists lo hi,
    get_expected_count_range (fun _ => 196 # 100) (fun _ => 113 # 10000)
      (15 # 100) 1000 default_confidence = Ok (lo, hi) /\
    0 <= lo /\ hi <= 1000.
Proof.
  destruct (expected_count_range_within_trials
              (fun _ => 196 # 100) (fun _ => 113 # 10000)
              (15 # 100) 1000 default_confidence) as (lo & hi & E & H & _).
  exists lo, hi. split; [exact E|]. apply H. lia.
Defined.

(** ** Dictionaries *)

Lemma distinct_cons (x : string) (r : list string) :
  distinct (x :: r) = true <-> ~ In x r /\ distinct r = true.
Proof.
  simpl. rewrite andb_true_iff, negb_true_iff. split.
  - intros [H1 H2]. split; [|exact H2]. intro Hin.
    assert (E : existsb (String.eqb x) r = true).
    { apply existsb_exists. exists x. split; [exact Hin|apply String.eqb_refl]. }
    congruence.
  - intros [H1 H2]. split; [|exact H2].
    destruct (existsb (String.eqb x) r) eqn:E; [|reflexivity].
    apply existsb_exists in E. destruct E as (y & Hy & Exy).
    apply String.eqb_eq in Exy. subst y. contradiction.
Qed.

Lemma dict_set_new {V : Type} (d : dict V) (k : string) (v : V) :
  ~ In k (keys d) -> dict_set d k v = d ++ [(k, v)].
Proof.
  induction d as [|[k' w] d IH]; intro H; simpl.
  - reflexivity.
  - destruct (String.eqb_spec k' k) as [->|Hne].
    + exfalso. apply H. left. reflexivity.
    + rewrite IH; [reflexivity|]. intro Hin. apply H. right. exact Hin.
Qed.

Lemma dict_get_set_same {V : Type} (d : dict V) (k : string) (v : V) :
  dict_get (dict_set d k v) k = Some v.
Proof.
  induction d as [|[k' w] d IH]; simpl.
  - rewrite String.eqb_refl. reflexivity.
  - destruct (String.eqb_spec k' k) as [->|Hne]; simpl.
    + rewrite String.eqb_refl. reflexivity.
    + destruct (String.eqb_spec k' k); [contradiction|exact IH].
Qed.

Lemma dict_get_set_other {V : Type} (d : dict V) (k k' : string) (v : V) :
  k <> k' -> dict_get (dict_set d k v) k' = dict_get d k'.
Proof.
  intro Hne. induction d as [|[k0 w] d IH]; simpl.
  - destruct (String.eqb_spec k k'); [contradiction|reflexivity].
  - destruct (String.eqb_spec k0 k) as [->|H0]; simpl.
    + destruct (String.eqb_spec k k'); [contradiction|reflexivity].
    + rewrite IH. reflexivity.
Qed.

Lemma dict_set_keys {V : Type} (d : dict V) (k : string) (v w : V) :
  dict_get d k = Some w -> keys (dict_set d k v) = keys d.
Proof.
  induction d as [|[k0 u] d IH]; simpl; intro H.
  - discriminate.
  - destruct (String.eqb_spec k0 k) as [->|H0]; simpl.
    + reflexivity.
    + rewrite IH by exact H. reflexivity.
Qed.

Lemma dict_set_same_value {V : Type} (d : dict V) (k : string) (v : V) :
  dict_get d k = Some v -> dict_set d k v = d.
Proof.
  induction d as [|[k0 u] d IH]; simpl; intro H.
  - discriminate.
  - destruct (String.eqb_spec k0 k) as [->|H0].
    + injection H as ->. reflexivity.
    + rewrite IH by exact H. reflexivity.
Qed.

Lemma dict_set_twice {V : Type} (d : dict V) (k : string) (v w : V) :
  dict_set (dict_set d k v) k w = dict_set d k w.
Proof.
  induction d as [|[k0 u] d IH]; simpl.
  - rewrite String.eqb_refl. reflexivity.
  - destruct (String.eqb_spec k0 k) as [->|H0]; simpl.
    + rewrite String.eqb_refl. reflexivity.
    + destruct (String.eqb_spec k0 k); [contradiction|]. rewrite IH. reflexivity.
Qed.

Lemma dict_get_in {V : Type} (d : dict V) (k : string) (v : V) :
  distinct (keys d) = true -> In (k, v) d -> dict_get d k = Some v.
Proof.
  induction d as [|[k0 u] d IH]; simpl keys; intros Hd Hin.
  - destruct Hin.
  - apply distinct_cons in Hd. destruct Hd as [Hn Hd]. simpl.
    destruct Hin as [E|Hin].
    + injection E as -> ->. rewrite String.eqb_refl. reflexivity.
    + destruct (String.eqb_spec k0 k) as [->|H0].
      * exfalso. apply Hn. change k with (fst (k, v)).
        apply in_map. exact Hin.
      * apply IH; assumption.
Qed.

(** Filling a dictionary from the items of another one: with distinct
    keys every assignment adds a new entry at the end. *)
Lemma fold_dict_set {U V : Type} (h : U -> V) (l : dict U) (acc : dict V) :
  distinct (keys l) = true ->
  (forall k, In k (keys l) -> ~ In k (keys acc)) ->
  fold_left (fun a item => dict_set a (fst item) (h (snd item))) l acc =
  acc ++ map (fun item => (fst item, h (snd item))) l.
Proof.
  revert acc. induction l as [|[k u] l IH]; intros acc Hd Hfresh.
  - simpl. rewrite app_nil_r. reflexivity.
  - simpl keys in Hd. apply distinct_cons in Hd. destruct Hd as [Hn Hd].
    simpl fold_left. rewrite dict_set_new by (apply Hfresh; left; reflexivity).
    rewrite IH.
    + rewrite <- app_assoc. reflexivity.
    + exact Hd.
    + intros k' Hk' Hin. unfold keys in Hin. rewrite map_app in Hin.
      apply in_app_or in Hin. destruct Hin as [Hin|[<-|[]]].
      * apply (Hfresh k'); [right; exact Hk'|exact Hin].
      * apply Hn. exact Hk'.
Qed.

(** ** The points of the curves *)

Lemma curve_range (max_n step : Z) :
  (0 < step)%Z ->
  py_range step (max_n + 1) step =
    Ok (map (fun i => (Z.of_nat (S i) * step)%Z)
            (seq 0 (Z.to_nat (max_n / step)))).
Proof.
  intro Hs. unfold py_range.
  destruct (Z.eqb_spec step 0) as [E|_]; [lia|].
  destruct (Z.ltb_spec 0 step) as [_|L]; [|lia].
  assert (Hlen : Z.to_nat (if (step <? max_n + 1)%Z
                           then ((max_n + 1 - step - 1) / step + 1)%Z else 0%Z)
                 = Z.to_nat (max_n / step)).
  { destruct (Z.ltb_spec step (max_n + 1)) as [L|G].
    - replace (max_n + 1 - step - 1)%Z with (max_n + (-1) * step)%Z by lia.
      rewrite Z.div_add by lia. f_equal. lia.
    - assert (max_n / step < 1)%Z by (apply Z.div_lt_upper_bound; lia). lia. }
  cbv zeta. rewrite Hlen. f_equal. apply map_ext. intro i. lia.
Qed.

Lemma curve_range_member (max_n step m : Z) :
  (0 < step)%Z ->
  In m (map (fun i => (Z.of_nat (S i) * step)%Z)
            (seq 0 (Z.to_nat (max_n / step)))) <->
  (0 < m <= max_n)%Z /\ (step | m)%Z.
Proof.
  intro Hs. rewrite in_map_iff. split.
  - intros (i & <- & Hi). apply in_seq in Hi.
    assert (Hq : (Z.of_nat (S i) <= max_n / step)%Z) by lia.
    pose proof (Z.mul_div_le max_n step Hs) as Hm.
    split; [split; nia|]. exists (Z.of_nat (S i)). reflexivity.
  - intros [[H0 H1] [c Hc]]. subst m.
    assert (Hc0 : (0 < c)%Z) by nia.
    assert (Hcq : (c <= max_n / step)%Z) by (apply Z.div_le_lower_bound; lia).
    exists (Z.to_nat (c - 1)). split; [f_equal; lia|]. apply in_seq. lia.
Qed.

Lemma strongly_sorted_multiples (step : Z) (a len : nat) :
  (0 < step)%Z ->
  StronglySorted Z.lt (map (fun i => (Z.of_nat (S i) * step)%Z) (seq a len)).
Proof.
  intro Hs. revert a. induction len as [|len IH]; intro a; cbn [seq map].
  - constructor.
  - constructor; [apply IH|].
    apply Forall_forall. intros x Hx. apply in_map_iff in Hx.
    destruct Hx as (i & <- & Hi). apply in_seq in Hi.
    apply Z.mul_lt_mono_pos_r; lia.
Qed.

Lemma strongly_sorted_snoc (l : list Z) (y : Z) :
  StronglySorted Z.lt l -> Forall (fun x => (x < y)%Z) l ->
  StronglySorted Z.lt (l ++ [y]).
Proof.
  induction 1 as [|x l Hl IH Hx]; intro Hy; simpl.
  - repeat constructor.
  - inversion Hy as [|? ? Hxy Hly]; subst. constructor; [apply IH; exact Hly|].
    apply Forall_app. split; [exact Hx|]. constructor; [exact Hxy|constructor].
Qed.

(** X5.  With a positive [step] the points are the positive multiples of
    [step] up to [max_n], followed by [max_n] itself when it is not one of
    them: they increase strictly and the last one is [max_n]. *)
Theorem curve_points_multiples (max_n step : Z) :
  (0 < step)%Z ->
  exists ns,
    curve_points max_n step = Ok ns /\
    (forall m, In m ns <->
               m = max_n \/ ((0 < m <= max_n)%Z /\ (step | m)%Z)) /\
    last ns 0%Z = max_n /\
    StronglySorted Z.lt ns.
Proof.
  intro Hs. unfold curve_points. rewrite curve_range by exact Hs.
  cbv beta iota delta [bind].
  set (r := map (fun i => (Z.of_nat (S i) * step)%Z)
                (seq 0 (Z.to_nat (max_n / step)))).
  assert (Hmem : forall m, In m r <-> (0 < m <= max_n)%Z /\ (step | m)%Z).
  { intro m. apply curve_range_member. exact Hs. }
  assert (Hsorted : StronglySorted Z.lt r).
  { apply strongly_sorted_multiples. exact Hs. }
  destruct (existsb (Z.eqb max_n) r) eqn:E; cbv beta iota delta [negb].
  - apply existsb_exists in E. destruct E as (x & Hx & Ex).
    apply Z.eqb_eq in Ex. subst x.
    exists r. split; [reflexivity|]. split; [|split; [|exact Hsorted]].
    + intro m. rewrite Hmem. split; [tauto|].
      intros [->|H]; [apply Hmem; exact Hx|exact H].
    + apply Hmem in Hx. destruct Hx as [[H0 H1] [c Hc]].
      assert (Hq : (max_n / step = c)%Z) by (subst max_n; apply Z.div_mul; lia).
      assert (Hc0 : (0 < c)%Z) by nia.
      unfold r. rewrite Hq.
      replace (Z.to_nat c) with (S (Z.to_nat (c - 1))) by lia.
      rewrite seq_S, map_app. cbn [map]. rewrite last_last.
      rewrite Hc. f_equal. lia.
  - exists (r ++ [max_n]). split; [reflexivity|]. split; [|split].
    + intro m. rewrite in_app_iff, Hmem. simpl. intuition auto.
    + apply last_last.
    + apply strongly_sorted_snoc; [exact Hsorted|].
      apply Forall_forall. intros x Hx.
      assert (Hne : x <> max_n).
      { intro Ex. subst x.
        assert (C : existsb (Z.eqb max_n) r = true).
        { apply existsb_exists. exists max_n. split; [exact Hx|apply Z.eqb_refl]. }
        congruence. }
      apply Hmem in Hx. lia.
Qed.

Lemma curve_points_multiples_witness :
  exists ns, curve_points 25 default_step = Ok ns /\ last ns 0%Z = 25%Z.
Proof.
  destruct (curve_points_multiples 25 default_step ltac:(reflexivity))
    as (ns & E & _ & Hlast & _).
  exists ns. split; assumption.
Defined.

(** ** generate_probability_curve_data *)

Section CurveFacts.

Variable norm_ppf : Q -> Q.
Variable np_sqrt : Q -> Q.

Lemma get_expected_count_range_total (p : Q) (n : Z) (confidence : Q) :
  exists v, get_expected_count_range norm_ppf np_sqrt p n confidence = Ok v.
Proof.
  destruct (get_confidence_interval_cases norm_ppf np_sqrt p n confidence)
    as (lo & hi & E & _).
  unfold get_expected_count_range. rewrite E. simpl bind. eexists. reflexivity.
Qed.

(** The count range at one point, as a value. *)
Lemma setting_curve_value (ns : list Z) (p : Q) :
  exists bounds,
    setting_curve norm_ppf np_sqrt ns p =
      Ok (mk_curve (map (fun n => p * inject_Z n) ns)
                   (map fst bounds) (map snd bounds)) /\
    List.length bounds = List.length ns /\
    (forall i n, nth_error ns i = Some n ->
       get_expected_count_range norm_ppf np_sqrt p n (95 # 100) =
         Ok (nth i (map fst bounds) 0, nth i (map snd bounds) 0)).
Proof.
  set (g := fun n => match get_expected_count_range norm_ppf np_sqrt p n (95 # 100)
                     with Ok v => v | Raise _ => (0, 0) end).
  assert (Hg : forall n, get_expected_count_range norm_ppf np_sqrt p n (95 # 100)
                         = Ok (g n)).
  { intro n. unfold g.
    destruct (get_expected_count_range_total p n (95 # 100)) as (v & ->).
    reflexivity. }
  exists (map g ns). split; [|split].
  - unfold setting_curve. rewrite (mapM_total _ g) by (intros; apply Hg).
    reflexivity.
  - apply length_map.
  - intros i n Hi. rewrite Hg, !map_map.
    assert (Hlt : (i < List.length ns)%nat).
    { apply nth_error_Some. congruence. }
    rewrite (nth_map_lt (fun x => fst (g x)) ns 0%Z) by exact Hlt.
    rewrite (nth_map_lt (fun x => snd (g x)) ns 0%Z) by exact Hlt.
    rewrite (nth_error_nth ns i 0%Z Hi).
    destruct (g n); reflexivity.
Qed.

Lemma curve_points_zero_step (max_n : Z) :
  curve_points max_n 0 = Raise ValueError.
Proof. reflexivity. Qed.

Lemma curve_points_total (max_n step : Z) :
  step <> 0%Z -> exists ns, curve_points max_n step = Ok ns /\ In max_n ns.
Proof.
  intro Hs. unfold curve_points, py_range.
  destruct (Z.eqb_spec step 0) as [E|_]; [contradiction|].
  cbv beta iota zeta delta [bind].
  match goal with |- context [existsb (Z.eqb max_n) ?l] => set (r := l) end.
  destruct (existsb (Z.eqb max_n) r) eqn:E; cbv beta iota delta [negb].
  - exists r. split; [reflexivity|].
    apply existsb_exists in E. destruct E as (x & Hx & Ex).
    apply Z.eqb_eq in Ex. subst x. exact Hx.
  - exists (r ++ [max_n]). split; [reflexivity|].
    apply in_or_app. right. left. reflexivity.
Qed.

(** The loop over the settings, once the points are known. *)
Lemma curves_fold (ns : list Z) (h : Q -> curve) (l : dict Q) (acc : dict curve) :
  (forall p, setting_curve norm_ppf np_sqrt ns p = Ok (h p)) ->
  fold_left
    (fun a item =>
       result_curves <- a ;;
       let '(setting_name, p) := item in
       c <- setting_curve norm_ppf np_sqrt ns p ;;
       Ok (dict_set result_curves setting_name c))
    l (Ok acc) =
  Ok (fold_left (fun a item => dict_set a (fst item) (h (snd item))) l acc).
Proof.
  intro Hh. revert acc. induction l as [|[k p] l IH]; intro acc.
  - reflexivity.
  - cbn [fold_left]. cbv beta iota delta [bind]. rewrite Hh.
    apply IH.
Qed.

(** X4.  A zero [step] makes [generate_probability_curve_data] raise
    [ValueError], whatever the other arguments; with any other step it
    returns, and [max_n] is one of the points. *)
Theorem curve_data_step (probabilities : dict Q) (max_n step : Z) :
  (step = 0%Z ->
   generate_probability_curve_data norm_ppf np_sqrt probabilities max_n step
     = Raise ValueError) /\
  (step <> 0%Z ->
   exists d,
     generate_probability_curve_data norm_ppf np_sqrt probabilities max_n step
       = Ok d /\
     In max_n (n_values d)).
Proof.
  split.
  - intros ->. reflexivity.
  - intro Hs. destruct (curve_points_total max_n step Hs) as (ns & E & Hin).
    unfold generate_probability_curve_data. rewrite E.
    cbv beta iota delta [bind].
    set (h := fun p => match setting_curve norm_ppf np_sqrt ns p with
                       | Ok c => c | Raise _ => mk_curve [] [] [] end).
    rewrite (curves_fold ns h).
    + eexists. split; [reflexivity|exact Hin].
    + intro p. unfold h.
      destruct (setting_curve_value ns p) as (b & -> & _). reflexivity.
Qed.

(** X6.  For a dictionary of probabilities and a non-zero [step], the
    curves come under the same names in the same order, and the curve of a
    setting with probability [p] holds, at every index [i], the expected
    count [p * n_values[i]] and the count range of
    [get_expected_count_range(p, n_values[i], 0.95)]. *)
Theorem curve_data_curves (probabilities : dict Q) (max_n step : Z) :
  distinct (keys probabilities) = true -> step <> 0%Z ->
  exists d,
    generate_probability_curve_data norm_ppf np_sqrt probabilities max_n step
      = Ok d /\
    curve_points max_n step = Ok (n_values d) /\
    keys (curves d) = keys probabilities /\
    forall name p, In (name, p) probabilities ->
      exists c,
        dict_get (curves d) name = Some c /\
        expected c = map (fun n => p * inject_Z n) (n_values d) /\
        List.length (lower c) = List.length (n_values d) /\
        List.length (upper c) = List.length (n_values d) /\
        forall i n, nth_error (n_values d) i = Some n ->
          get_expected_count_range norm_ppf np_sqrt p n (95 # 100) =
            Ok (nth i (lower c) 0, nth i (upper c) 0).
Proof.
  intros Hd Hs. destruct (curve_points_total max_n step Hs) as (ns & E & _).
  unfold generate_probability_curve_data. rewrite E.
  cbv beta iota delta [bind].
  set (h := fun p => match setting_curve norm_ppf np_sqrt ns p with
                     | Ok c => c | Raise _ => mk_curve [] [] [] end).
  assert (Hh : forall p, setting_curve norm_ppf np_sqrt ns p = Ok (h p)).
  { intro p. unfold h.
    destruct (setting_curve_value ns p) as (b & -> & _). reflexivity. }
  rewrite (curves_fold ns h) by exact Hh.
  rewrite fold_dict_set by (try exact Hd; intros k _ []).
  rewrite app_nil_l.
  eexists. split; [reflexivity|]. cbn [n_values curves].
  split; [reflexivity|]. split.
  - unfold keys. rewrite map_map. reflexivity.
  - intros name p Hin. exists (h p). split.
    + apply dict_get_in.
      * unfold keys. rewrite map_map. exact Hd.
      * apply in_map_iff. exists (name, p). split; [reflexivity|exact Hin].
    + destruct (setting_curve_value ns p) as (b & Eb & Hlen & Hb).
      rewrite Hh in Eb. injection Eb as Eb. rewrite Eb. cbn [expected lower upper].
      rewrite !length_map.
      split; [reflexivity|]. split; [exact Hlen|]. split; [exact Hlen|exact Hb].
Qed.

End CurveFacts.

Lemma curve_data_step_witness :
  generate_probability_curve_data (fun _ => 196 # 100) (fun _ => 1 # 100)
    [("a"%string, 1 # 5)] 25 0 = Raise ValueError /\
  exists d,
    generate_probability_curve_data (fun _ => 196 # 100) (fun _ => 1 # 100)
      [("a"%string, 1 # 5)] 25 default_step = Ok d /\
    In 25%Z (n_values d).
Proof.
  split.
  - apply (proj1 (curve_data_step (fun _ => 196 # 100) (fun _ => 1 # 100)
                    [("a"%string, 1 # 5)] 25 0)). reflexivity.
  - apply (proj2 (curve_data_step (fun _ => 196 # 100) (fun _ => 1 # 100)
                    [("a"%string, 1 # 5)] 25 default_step)). discriminate.
Defined.

Lemma curve_data_curves_witness :
  exists d,
    generate_probability_curve_data (fun _ => 196 # 100) (fun _ => 1 # 100)
      [("a"%string, 1 # 5); ("b"%string, 1 # 6)] 25 default_step = Ok d /\
    keys (curves d) = ["a"%string; "b"%string].
Proof.
  destruct (curve_data_curves (fun _ => 196 # 100) (fun _ => 1 # 100)
              [("a"%string, 1 # 5); ("b"%string, 1 # 6)] 25 default_step)
    as (d & E & _ & K & _).
  - reflexivity.
  - discriminate.
  - exists d. split; [exact E|exact K].
Defined.

(** ** evaluate_setting *)

(** X7.  For a fixed significance the verdict is monotone in the p-value:
    a larger p-value never gets a verdict closer to rejection. *)
Theorem evaluate_setting_monotone (p1 p2 significance : Q) :
  p1 <= p2 ->
  (verdict_rank (fst (evaluate_setting p1 significance)) <=
   verdict_rank (fst (evaluate_setting p2 significance)))%nat.
Proof.
  intro Hle. unfold evaluate_setting.
  destruct (Qltb p1 (significance / 2)) eqn:A1;
  destruct (Qltb p1 significance) eqn:A2;
  destruct (Qltb p1 (25 # 100)) eqn:A3;
  destruct (Qltb p2 (significance / 2)) eqn:B1;
  destruct (Qltb p2 significance) eqn:B2;
  destruct (Qltb p2 (25 # 100)) eqn:B3;
  cbn [fst];
  try (vm_compute; lia);
  repeat match goal with
         | H : Qltb _ _ = true |- _ => apply Qltb_lt in H
         | H : Qltb _ _ = false |- _ => apply Qltb_ge in H
         end;
  change (significance / 2) with (significance * (1 # 2)) in *;
  exfalso; lra.
Qed.

Lemma evaluate_setting_monotone_witness :
  (verdict_rank (fst (evaluate_setting (3 # 100) default_significance)) <=
   verdict_rank (fst (evaluate_setting (30 # 100) default_significance)))%nat.
Proof.
  apply evaluate_setting_monotone. discriminate.
Defined.

(** ** calculate_relative_likelihood *)

Lemma calculate_likelihood_nonneg (n k : Z) (p : Q) :
  0 <= calculate_likelihood n k p.
Proof.
  unfold calculate_likelihood.
  destruct ((n <=? 0)%Z || Qle_bool p 0 || Qle_bool 1 p) eqn:G.
  - apply Qle_refl.
  - apply guard_false in G. destruct G as (_ & H0 & H1).
    apply binom_pmf_nonneg; lra.
Qed.

Lemma calculate_likelihood_no_evidence (n k : Z) (p : Q) :
  (n <= 0)%Z \/ (k < 0)%Z \/ (n < k)%Z -> calculate_likelihood n k p = 0.
Proof.
  intro H. unfold calculate_likelihood.
  destruct ((n <=? 0)%Z || Qle_bool p 0 || Qle_bool 1 p) eqn:G; [reflexivity|].
  apply guard_false in G. destruct G as (Hn & _).
  unfold binom_pmf.
  destruct (Z.leb_spec 0 k) as [L0|L0]; destruct (Z.leb_spec k n) as [L1|L1];
    simpl; try reflexivity. lia.
Qed.

Lemma py_sum_member_le (l : list Q) (y : Q) :
  (forall x, In x l -> 0 <= x) -> In y l -> y <= py_sum l.
Proof.
  induction l as [|x l IH]; intros Hpos Hin.
  - destruct Hin.
  - rewrite py_sum_cons.
    assert (Hx : 0 <= x) by (apply Hpos; left; reflexivity).
    assert (Hl : 0 <= py_sum l).
    { apply py_sum_nonneg. intros z Hz. apply Hpos. right. exact Hz. }
    destruct Hin as [->|Hin].
    + lra.
    + assert (y <= py_sum l).
      { apply IH; [|exact Hin]. intros z Hz. apply Hpos. right. exact Hz. }
      lra.
Qed.

Lemma py_sum_zeros (l : list Q) :
  (forall x, In x l -> x == 0) -> py_sum l == 0.
Proof.
  induction l as [|x l IH]; intro H.
  - reflexivity.
  - rewrite py_sum_cons, (H x (or_introl eq_refl)), IH.
    + ring.
    + intros y Hy. apply H. right. exact Hy.
Qed.

(** X12.  Every relative likelihood that [calculate_relative_likelihood]
    returns lies in [0, 1]. *)
Theorem relative_likelihood_in_unit_interval (n k : Z) (ps out : list Q) :
  calculate_relative_likelihood n k ps = Ok out ->
  forall x, In x out -> 0 <= x /\ x <= 1.
Proof.
  intros Hout x Hx.
  assert (Hne : ps <> []).
  { intro E. subst ps. discriminate Hout. }
  set (raws := map (calculate_likelihood n k) ps) in *.
  assert (Hraw : forall y, In y raws -> 0 <= y).
  { intros y Hy. apply in_map_iff in Hy. destruct Hy as (p & <- & _).
    apply calculate_likelihood_nonneg. }
  destruct (Qeq_dec (py_sum raws) 0) as [Z0|NZ].
  - rewrite relative_likelihood_uniform in Hout by assumption.
    injection Hout as <-. apply repeat_spec in Hx. subst x.
    assert (Hlen : 1 <= inject_Z (Z.of_nat (List.length ps))).
    { change 1 with (inject_Z 1). rewrite <- Zle_Qle.
      destruct ps; [congruence|simpl List.length; lia]. }
    split.
    + apply Qle_shift_div_l; lra.
    + apply Qle_shift_div_r; lra.
  - rewrite relative_likelihood_normal in Hout by exact NZ.
    injection Hout as <-. fold raws in Hx. apply in_map_iff in Hx.
    destruct Hx as (y & <- & Hy).
    assert (Htot : 0 < py_sum raws).
    { pose proof (py_sum_nonneg raws Hraw) as H0.
      destruct (Qlt_le_dec 0 (py_sum raws)) as [L|L]; [exact L|].
      exfalso. apply NZ. lra. }
    pose proof (Hraw y Hy) as Hy0.
    pose proof (py_sum_member_le raws y Hraw Hy) as Hy1.
    fold raws. split.
    + apply Qle_shift_div_l; lra.
    + apply Qle_shift_div_r; lra.
Qed.

Lemma relative_likelihood_in_unit_interval_witness :
  0 <= 1 # 3 /\ 1 # 3 <= 1.
Proof.
  apply (relative_likelihood_in_unit_interval 100 10 [0; 0; 0]
           [1 # 3; 1 # 3; 1 # 3] eq_refl (1 # 3)).
  left. reflexivity.
Defined.

(** X13.  With no trials ([n <= 0]) or an observed count outside [0..n],
    every raw likelihood is 0 and a nonempty list of candidates gets the
    uniform distribution: the call returns where [binomial_p_value] raises
    on a count outside the range. *)
Theorem relative_likelihood_count_out_of_range (n k : Z) (ps : list Q) :
  ps <> [] ->
  (n <= 0)%Z \/ (k < 0)%Z \/ (n < k)%Z ->
  calculate_relative_likelihood n k ps =
    Ok (repeat (1 / inject_Z (Z.of_nat (List.length ps))) (List.length ps)).
Proof.
  intros Hne H. apply relative_likelihood_uniform; [exact Hne|].
  apply py_sum_zeros. intros x Hx. apply in_map_iff in Hx.
  destruct Hx as (p & <- & _).
  rewrite calculate_likelihood_no_evidence by exact H. reflexivity.
Qed.

Lemma relative_likelihood_count_out_of_range_witness :
  calculate_relative_likelihood 10 11 [1 # 7; 1 # 6] = Ok [1 / 2; 1 / 2].
Proof.
  apply (relative_likelihood_count_out_of_range 10 11 [1 # 7; 1 # 6]).
  - discriminate.
  - right. right. lia.
Defined.

(** ** parse_probability_input: what it raises and what it returns *)

Section ParseFacts.

Variable float : string -> result Q.

Lemma decimal_raises (t : string) (e : exn) :
  (forall s e', float s = Raise e' -> e' = ValueError) ->
  (value <- float t ;; if Qltb 1 value then py_div 1 value else Ok value)
    = Raise e ->
  e = ValueError.
Proof.
  intros Hf H. destruct (float t) as [v|e'] eqn:E; simpl in H.
  - destruct (Qltb 1 v) eqn:L; [|discriminate].
    apply Qltb_lt in L. rewrite py_div_ok in H; [discriminate|].
    intro Z0. rewrite Z0 in L. discriminate L.
  - injection H as <-. apply (Hf t). exact E.
Qed.

(** X8.  [float] raises nothing but [ValueError], and then so does
    [parse_probability_input]: no text makes it raise
    [ZeroDivisionError], not even a fraction with a zero denominator. *)
Theorem parse_raises_only_value_error (input_str : string) (e : exn) :
  (forall s e', float s = Raise e' -> e' = ValueError) ->
  parse_probability_input float input_str = Raise e ->
  e = ValueError.
Proof.
  intros Hf H. unfold parse_probability_input in H.
  destruct (endswith (strip input_str) "%").
  - destruct (float (drop_last (strip input_str))) as [x|e'] eqn:E; simpl in H.
    + rewrite py_div_ok in H by discriminate. discriminate H.
    + injection H as <-. apply (Hf _ _ E).
  - destruct (contains "/" (strip input_str));
      [|apply (decimal_raises _ _ Hf H)].
    destruct (split "/" (strip input_str)) as [|a [|b [|c l]]];
      try apply (decimal_raises _ _ Hf H).
    destruct (float a) as [x|e1] eqn:Ea; simpl in H;
      [|injection H as <-; apply (Hf _ _ Ea)].
    destruct (float b) as [y|e2] eqn:Eb; simpl in H;
      [|injection H as <-; apply (Hf _ _ Eb)].
    destruct (Qeq_bool y 0) eqn:Ey; simpl in H.
    + apply (decimal_raises _ _ Hf H).
    + unfold py_div in H. rewrite Ey in H. discriminate H.
Qed.


End ParseFacts.

Lemma float_literal_raises (s : string) (e : exn) :
  float_literal s = Raise e -> e = ValueError.
Proof.
  assert (U : forall t e', unsigned_literal t = Raise e' -> e' = ValueError).
  { intros t e' H. unfold unsigned_literal in H.
    destruct (digits t 0%Z 0%nat) as [[ip ni] rest].
    destruct rest as [|c r].
    - destruct (ni =? 0)%nat; [injection H as <-; reflexivity|discriminate].
    - destruct c as [[] [] [] [] [] [] [] []];
        try (injection H as <-; reflexivity).
      destruct (digits r ip 0%nat) as [[all nf] rest'].
      destruct rest'; [|injection H as <-; reflexivity].
      destruct (ni + nf =? 0)%nat; [injection H as <-; reflexivity|discriminate]. }
  unfold float_literal. destruct (strip s) as [|c r]; [apply U|].
  destruct c as [[] [] [] [] [] [] [] []]; try apply U.
  intro H. destruct (unsigned_literal r) as [x|e'] eqn:E; simpl in H.
  - discriminate.
  - injection H as <-. apply (U _ _ E).
Qed.

Lemma parse_raises_only_value_error_witness :
  match parse_probability_input float_literal "1/0" with
  | Raise e => e = ValueError
  | Ok _ => False
  end.
Proof.
  exact (parse_raises_only_value_error float_literal "1/0" ValueError
           float_literal_raises eq_refl).
Defined.


(** ** Strings: trimming and searching *)

Lemma string_of_list_ascii_app (l1 l2 : list ascii) :
  string_of_list_ascii (l1 ++ l2) =
  (string_of_list_ascii l1 ++ string_of_list_ascii l2)%string.
Proof.
  induction l1 as [|a l1 IH]; simpl; [reflexivity|rewrite IH; reflexivity].
Qed.

Lemma list_ascii_of_string_app (s1 s2 : string) :
  list_ascii_of_string (s1 ++ s2) =
  list_ascii_of_string s1 ++ list_ascii_of_string s2.
Proof.
  induction s1 as [|a s1 IH]; simpl; [reflexivity|rewrite IH; reflexivity].
Qed.

Lemma rev_string_cons (a : ascii) (t : string) :
  rev_string (String a t) = (rev_string t ++ String a EmptyString)%string.
Proof.
  unfold rev_string. simpl. rewrite string_of_list_ascii_app. reflexivity.
Qed.

Lemma rev_string_snoc (x : string) (a : ascii) :
  rev_string (x ++ String a EmptyString) = String a (rev_string x).
Proof.
  unfold rev_string. rewrite list_ascii_of_string_app, rev_app_distr.
  reflexivity.
Qed.

Lemma rev_string_involutive (s : string) : rev_string (rev_string s) = s.
Proof.
  unfold rev_string.
  rewrite list_ascii_of_string_of_list_ascii, rev_involutive.
  apply string_of_list_ascii_of_string.
Qed.

Lemma lstrip_idempotent (s : string) : lstrip (lstrip s) = lstrip s.
Proof.
  induction s as [|c r IH]; simpl; [reflexivity|].
  destruct (is_space c) eqn:E; [exact IH|]. simpl. rewrite E. reflexivity.
Qed.

Lemma lstrip_snoc (x : string) (a : ascii) :
  is_space a = false ->
  lstrip (x ++ String a EmptyString) = (lstrip x ++ String a EmptyString)%string.
Proof.
  intro Ha. induction x as [|c r IH]; simpl.
  - rewrite Ha. reflexivity.
  - destruct (is_space c); [exact IH|reflexivity].
Qed.

(** Trimming the right end keeps a clean left end. *)
Lemma rstrip_keeps_head (t : string) :
  lstrip t = t ->
  lstrip (rev_string (lstrip (rev_string t))) = rev_string (lstrip (rev_string t)).
Proof.
  intro H. destruct t as [|a t]; [reflexivity|].
  assert (Ha : is_space a = false).
  { simpl in H. destruct (is_space a) eqn:E; [|reflexivity].
    exfalso. assert (L : forall s, (String.length (lstrip s) <= String.length s)%nat).
    { clear. induction s as [|c r IH]; simpl; [lia|].
      destruct (is_space c); simpl; lia. }
    pose proof (L t) as Ht. rewrite H in Ht. simpl in Ht. lia. }
  rewrite rev_string_cons, lstrip_snoc by exact Ha.
  rewrite rev_string_snoc. simpl. rewrite Ha. reflexivity.
Qed.

Lemma strip_idempotent (s : string) : strip (strip s) = strip s.
Proof.
  unfold strip.
  rewrite (rstrip_keeps_head (lstrip s)) by apply lstrip_idempotent.
  rewrite rev_string_involutive, lstrip_idempotent. reflexivity.
Qed.

Lemma contains_app (c : ascii) (x y : string) :
  contains c (x ++ y) = contains c x || contains c y.
Proof.
  induction x as [|d r IH]; simpl; [reflexivity|].
  rewrite IH, orb_assoc. reflexivity.
Qed.

Lemma contains_rev_string (c : ascii) (s : string) :
  contains c (rev_string s) = contains c s.
Proof.
  induction s as [|d r IH]; [reflexivity|].
  rewrite rev_string_cons, contains_app, IH. simpl.
  rewrite orb_false_r. apply orb_comm.
Qed.

Lemma contains_lstrip (c : ascii) (s : string) :
  is_space c = false -> contains c (lstrip s) = contains c s.
Proof.
  intro Hc. induction s as [|d r IH]; simpl; [reflexivity|].
  destruct (is_space d) eqn:E; [|reflexivity].
  rewrite IH. destruct (Ascii.eqb_spec d c) as [->|_]; [congruence|reflexivity].
Qed.

Lemma contains_strip (c : ascii) (s : string) :
  is_space c = false -> contains c (strip s) = contains c s.
Proof.
  intro Hc. unfold strip.
  rewrite contains_rev_string, contains_lstrip, contains_rev_string,
    contains_lstrip by exact Hc.
  reflexivity.
Qed.

(** X11.  Trimming is idempotent, so a text that is already trimmed parses
    as the text itself does. *)
Theorem parse_trimmed_input (float : string -> result Q) (input_str : string) :
  strip (strip input_str) = strip input_str /\
  parse_probability_input float (strip input_str) =
  parse_probability_input float input_str.
Proof.
  split; [apply strip_idempotent|].
  unfold parse_probability_input. rewrite strip_idempotent. reflexivity.
Qed.

(** ** The decimal reader rejects a slash *)

Lemma digits_rest (s : string) (acc : Z) (cnt : nat) :
  contains "/" (snd (digits s acc cnt)) = contains "/" s.
Proof.
  revert acc cnt. induction s as [|c r IH]; intros acc cnt; simpl.
  - reflexivity.
  - destruct (digit_of c) as [d|] eqn:E.
    + rewrite IH.
      destruct (Ascii.eqb_spec c "/") as [->|_]; [discriminate E|reflexivity].
    + reflexivity.
Qed.

Lemma unsigned_literal_slash (t : string) :
  contains "/" t = true -> unsigned_literal t = Raise ValueError.
Proof.
  intro H. unfold unsigned_literal.
  pose proof (digits_rest t 0%Z 0%nat) as E. rewrite H in E.
  destruct (digits t 0%Z 0%nat) as [[ip ni] rest]. simpl in E.
  destruct rest as [|c r]; [discriminate E|].
  destruct c as [[] [] [] [] [] [] [] []]; try reflexivity.
  simpl in E.
  pose proof (digits_rest r ip 0%nat) as E2. rewrite E in E2.
  destruct (digits r ip 0%nat) as [[all nf] rest']. simpl in E2.
  destruct rest'; [discriminate E2|reflexivity].
Qed.

Lemma float_literal_slash (s : string) :
  contains "/" s = true -> float_literal s = Raise ValueError.
Proof.
  intro H. rewrite <- (contains_strip "/" s) in H by reflexivity.
  unfold float_literal. destruct (strip s) as [|c r]; [discriminate H|].
  destruct c as [[] [] [] [] [] [] [] []];
    first [ rewrite (unsigned_literal_slash _ H); reflexivity
          | simpl in H; rewrite (unsigned_literal_slash _ H); reflexivity ].
Qed.

(** X10.  With the decimal reader, a text that holds a slash and is not a
    fraction of two numbers with a non-zero denominator is an error: a zero
    denominator raises [ValueError], and so does a text with more than one
    slash. *)
Theorem parse_fraction_errors (input_str : string) :
  endswith (strip input_str) "%" = false ->
  contains "/" (strip input_str) = true ->
  (forall a b x y,
     split "/" (strip input_str) = [a; b] ->
     float_literal a = Ok x -> float_literal b = Ok y -> y == 0 ->
     parse_probability_input float_literal input_str = Raise ValueError) /\
  (List.length (split "/" (strip input_str)) <> 2%nat ->
   parse_probability_input float_literal input_str = Raise ValueError).
Proof.
  intros Hp Hc.
  assert (Hd : (value <- float_literal (strip input_str) ;;
                if Qltb 1 value then py_div 1 value else Ok value)
               = Raise ValueError).
  { rewrite float_literal_slash by exact Hc. reflexivity. }
  split.
  - intros a b x y Hs Ha Hb Hy. unfold parse_probability_input.
    rewrite Hp, Hc, Hs, Ha, Hb. simpl bind.
    apply Qeq_bool_iff in Hy. rewrite Hy. exact Hd.
  - intro Hlen. unfold parse_probability_input. rewrite Hp, Hc.
    destruct (split "/" (strip input_str)) as [|a [|b [|c l]]];
      try exact Hd.
    exfalso. apply Hlen. reflexivity.
Qed.

Lemma parse_fraction_errors_witness :
  parse_probability_input float_literal "1/0" = Raise ValueError /\
  parse_probability_input float_literal "1/2/3" = Raise ValueError.
Proof.
  split.
  - apply (proj1 (parse_fraction_errors "1/0" eq_refl eq_refl)
             "1"%string "0"%string 1 0); reflexivity.
  - apply (proj2 (parse_fraction_errors "1/2/3" eq_refl eq_refl)).
    discriminate.
Defined.

(** * Properties of app.py *)

(** ** The counters *)

Lemma dict_get_key {V : Type} (d : dict V) (k : string) :
  In k (keys d) <-> exists v, dict_get d k = Some v.
Proof.
  induction d as [|[k0 u] d IH]; simpl.
  - split; [intros []|intros [v H]; discriminate].
  - destruct (String.eqb_spec k0 k) as [->|Hne].
    + split; [intros _; exists u; reflexivity|intros _; left; reflexivity].
    + rewrite <- IH. split; [intros [E|H]; [contradiction|exact H]|].
      intro H. right. exact H.
Qed.

Lemma dict_set_forall {V : Type} (P : V -> Prop) (d : dict V) (k : string) (v : V) :
  Forall (fun kv => P (snd kv)) d -> P v ->
  Forall (fun kv => P (snd kv)) (dict_set d k v).
Proof.
  intros Hd Hv. induction Hd as [|[k0 u] d Hu Hd IH]; simpl.
  - constructor; [exact Hv|constructor].
  - destruct (String.eqb k0 k); constructor; assumption.
Qed.

Lemma dict_get_forall {V : Type} (P : V -> Prop) (d : dict V) (k : string) (v : V) :
  Forall (fun kv => P (snd kv)) d -> dict_get d k = Some v -> P v.
Proof.
  intros Hd. induction Hd as [|[k0 u] d Hu Hd IH]; simpl; intro H.
  - discriminate.
  - destruct (String.eqb k0 k); [injection H as <-; exact Hu|apply IH; exact H].
Qed.

(** Resetting: the loop over the keys, from any point on. *)
Lemma reset_fold (ks : list string) (acc : dict Z) :
  (forall k, In k ks -> In k (keys acc)) ->
  keys (fold_left (fun a color => dict_set a color 0%Z) ks acc) = keys acc /\
  (forall color,
     In color ks \/ dict_get acc color = Some 0%Z ->
     dict_get (fold_left (fun a color => dict_set a color 0%Z) ks acc) color
       = Some 0%Z) /\
  (Forall (fun kv => (0 <= snd kv)%Z) acc ->
   Forall (fun kv => (0 <= snd kv)%Z)
          (fold_left (fun a color => dict_set a color 0%Z) ks acc)).
Proof.
  revert acc. induction ks as [|k ks IH]; intros acc Hks.
  - simpl. split; [reflexivity|]. split; [|auto].
    intros color [[]|H]. exact H.
  - cbn [fold_left].
    assert (Hk : exists w, dict_get acc k = Some w).
    { apply dict_get_key. apply Hks. left. reflexivity. }
    destruct Hk as [w Hw].
    assert (Hkeys : keys (dict_set acc k 0%Z) = keys acc).
    { apply (dict_set_keys acc k 0%Z w). exact Hw. }
    destruct (IH (dict_set acc k 0%Z)) as (K & G & F).
    { intros k' Hk'. rewrite Hkeys. apply Hks. right. exact Hk'. }
    split; [rewrite K; exact Hkeys|]. split.
    + intros color Hc. apply G.
      destruct (String.eqb_spec k color) as [->|Hne].
      * right. apply dict_get_set_same.
      * destruct Hc as [[E|Hin]|Hget].
        -- contradiction.
        -- left. exact Hin.
        -- right. rewrite dict_get_set_other by exact Hne. exact Hget.
    + intro Hnn. apply F. apply dict_set_forall; [exact Hnn|lia].
Qed.

(** X16.  [reset_all_counts] keeps the colours and their order and leaves
    every counter at 0. *)
Theorem reset_all_counts_zero (counts : dict Z) :
  keys (App.reset_all_counts counts) = keys counts /\
  forall color, In color (keys counts) ->
    dict_get (App.reset_all_counts counts) color = Some 0%Z.
Proof.
  destruct (reset_fold (keys counts) counts (fun k H => H)) as (K & G & _).
  split; [exact K|]. intros color Hc. apply G. left. exact Hc.
Qed.

Lemma reset_all_counts_zero_witness :
  dict_get (App.reset_all_counts [("黄", 3); ("赤", 1)]%Z%string) "赤"%string
    = Some 0%Z.
Proof.
  apply (proj2 (reset_all_counts_zero [("黄", 3); ("赤", 1)]%Z%string)).
  simpl. right. left. reflexivity.
Defined.

Lemma press_button_invariant (b : App.press) (counts counts' : dict Z) :
  Forall (fun kv => (0 <= snd kv)%Z) counts ->
  App.press_button b counts = Some counts' ->
  keys counts' = keys counts /\ Forall (fun kv => (0 <= snd kv)%Z) counts'.
Proof.
  intros Hnn H. destruct b as [color|color|]; simpl in H.
  - unfold App.increment_count in H.
    destruct (dict_get counts color) as [c|] eqn:E; [|discriminate].
    injection H as <-. split.
    + apply (dict_set_keys counts color _ c). exact E.
    + apply dict_set_forall; [exact Hnn|].
      pose proof (dict_get_forall (fun v => (0 <= v)%Z) counts color c Hnn E).
      simpl in *. lia.
  - unfold App.decrement_count in H.
    destruct (dict_get counts color) as [c|] eqn:E; [|discriminate].
    destruct (Z.ltb_spec 0 c) as [L|L]; injection H as <-.
    + split.
      * apply (dict_set_keys counts color _ c). exact E.
      * apply dict_set_forall; [exact Hnn|lia].
    + split; [reflexivity|exact Hnn].
  - injection H as <-.
    destruct (reset_fold (keys counts) counts (fun k H => H)) as (K & _ & F).
    split; [exact K|apply F; exact Hnn].
Qed.

(** X14.  No sequence of presses on the plus, minus and reset buttons
    makes a counter negative or changes the colours: starting from counters
    that are not negative, every counter reached is not negative, under the
    same keys in the same order. *)
Theorem counters_never_negative (bs : list App.press) (counts counts' : dict Z) :
  Forall (fun kv => (0 <= snd kv)%Z) counts ->
  App.press_buttons bs counts = Some counts' ->
  keys counts' = keys counts /\ Forall (fun kv => (0 <= snd kv)%Z) counts'.
Proof.
  revert counts. induction bs as [|b bs IH]; intros counts Hnn H; simpl in H.
  - injection H as <-. split; [reflexivity|exact Hnn].
  - destruct (App.press_button b counts) as [c1|] eqn:E; [|discriminate].
    destruct (press_button_invariant b counts c1 Hnn E) as [K1 N1].
    destruct (IH c1 N1 H) as [K2 N2].
    split; [rewrite K2; exact K1|exact N2].
Qed.

Lemma counters_never_negative_witness :
  exists counts',
    App.press_buttons [App.Minus "黄"; App.Plus "赤"; App.Minus "赤";
                       App.Minus "赤"]%string App.initial_counts
      = Some counts' /\
    Forall (fun kv => (0 <= snd kv)%Z) counts'.
Proof.
  eexists. split; [reflexivity|].
  refine (proj2 (counters_never_negative
                   [App.Minus "黄"; App.Plus "赤"; App.Minus "赤";
                    App.Minus "赤"]%string App.initial_counts _ _ eq_refl)).
  repeat constructor; simpl; lia.
Defined.

(** X15.  On a colour whose counter is [c >= 0], a minus press after a
    plus press gives back the counters as they were; a plus press after a
    minus press does so only when [c > 0], because the minus press leaves a
    counter at 0 as it is. *)
Theorem plus_minus_round_trip (color : string) (counts : dict Z) (c : Z) :
  dict_get counts color = Some c -> (0 <= c)%Z ->
  App.press_buttons [App.Plus color; App.Minus color] counts = Some counts /\
  ((0 < c)%Z ->
   App.press_buttons [App.Minus color; App.Plus color] counts = Some counts) /\
  (c = 0%Z ->
   App.press_buttons [App.Minus color; App.Plus color] counts
     = Some (dict_set counts color 1%Z)).
Proof.
  intros E Hc. split; [|split].
  - simpl. unfold App.increment_count. rewrite E.
    unfold App.decrement_count. rewrite dict_get_set_same.
    destruct (Z.ltb_spec 0 (c + 1)) as [_|L]; [|lia].
    rewrite dict_set_twice. replace (c + 1 - 1)%Z with c by lia.
    rewrite dict_set_same_value by exact E. reflexivity.
  - intro Hpos. simpl. unfold App.decrement_count. rewrite E.
    destruct (Z.ltb_spec 0 c) as [_|L]; [|lia].
    unfold App.increment_count. rewrite dict_get_set_same.
    rewrite dict_set_twice. replace (c - 1 + 1)%Z with c by lia.
    rewrite dict_set_same_value by exact E. reflexivity.
  - intros ->. simpl. unfold App.decrement_count. rewrite E. simpl.
    unfold App.increment_count. rewrite E. reflexivity.
Qed.

Lemma plus_minus_round_trip_witness :
  App.press_buttons [App.Plus "緑"; App.Minus "緑"]%string App.initial_counts
    = Some App.initial_counts /\
  App.press_buttons [App.Minus "緑"; App.Plus "緑"]%string App.initial_counts
    = Some (dict_set App.initial_counts "緑" 1%Z).
Proof.
  destruct (plus_minus_round_trip "緑" App.initial_counts 0 eq_refl ltac:(lia))
    as (H1 & _ & H3).
  split; [exact H1|apply H3; reflexivity].
Defined.

(** X17.  A plus or minus press on one colour leaves the counter of every
    other colour as it is, and a press on a colour that is not a key of the
    counters raises [KeyError]. *)
Theorem press_touches_one_counter (color other : string) (counts : dict Z) :
  (color <> other ->
   forall counts',
     App.increment_count color counts = Some counts' \/
     App.decrement_count color counts = Some counts' ->
     dict_get counts' other = dict_get counts other) /\
  (~ In color (keys counts) ->
   App.increment_count color counts = None /\
   App.decrement_count color counts = None).
Proof.
  split.
  - intros Hne counts' H.
    unfold App.increment_count, App.decrement_count in H.
    destruct (dict_get counts color) as [c|] eqn:E.
    + destruct H as [H|H].
      * injection H as <-. apply dict_get_set_other. exact Hne.
      * destruct (0 <? c)%Z; injection H as <-;
          [apply dict_get_set_other; exact Hne|reflexivity].
    + destruct H as [H|H]; discriminate H.
  - intro Hnot. unfold App.increment_count, App.decrement_count.
    destruct (dict_get counts color) as [c|] eqn:E; [|split; reflexivity].
    exfalso. apply Hnot. apply dict_get_key. exists c. exact E.
Qed.

Lemma press_touches_one_counter_witness :
  dict_get (dict_set App.initial_counts "黄" 1%Z) "青"%string
    = dict_get App.initial_counts "青"%string /\
  App.increment_count "白" App.initial_counts = None.
Proof.
  split.
  - apply (proj1 (press_touches_one_counter "黄" "青" App.initial_counts)).
    + discriminate.
    + left. reflexivity.
  - apply (proj2 (press_touches_one_counter "白" "青" App.initial_counts)).
    simpl. intros [H|[H|[H|[H|[]]]]]; discriminate H.
Defined.


(** ** run_analysis: reading the table of denominators *)

Section AnalysisFacts.

Variable float : string -> result Q.
Variable int : string -> result Z.

Lemma parse_denominator_cases (prob_str : string) :
  (exists d, float prob_str = Ok d /\ 0 < d /\
             App.parse_denominator float prob_str = 1 / d) \/
  ((forall d, float prob_str = Ok d -> d <= 0) /\
   App.parse_denominator float prob_str = 0).
Proof.
  unfold App.parse_denominator.
  destruct (float prob_str) as [d|e]; simpl.
  - destruct (Qltb 0 d) eqn:L.
    + apply Qltb_lt in L. left. exists d.
      rewrite py_div_ok by (intro Z0; rewrite Z0 in L; discriminate L).
      auto.
    + apply Qltb_ge in L. right. split; [|reflexivity].
      intros d' E. injection E as <-. exact L.
  - right. split; [intros d E; discriminate E|].
    destruct e; reflexivity.
Qed.

(** X18.  Reading a denominator never fails and never gives a negative
    probability: a text that is a number [d > 0] gives [1/d], every other
    text gives 0; the probability lies strictly inside (0,1) exactly when
    the text is a number greater than 1. *)
Theorem parse_denominator_range (prob_str : string) :
  0 <= App.parse_denominator float prob_str /\
  (0 < App.parse_denominator float prob_str /\
   App.parse_denominator float prob_str < 1
   <-> exists d, float prob_str = Ok d /\ 1 < d).
Proof.
  destruct (parse_denominator_cases prob_str) as [(d & E & Hd & ->)|[Hn ->]].
  - assert (Hinv : 0 < 1 / d) by (apply Qlt_shift_div_l; lra).
    split; [lra|]. split.
    + intros [_ H1]. exists d. split; [exact E|].
      destruct (Qlt_le_dec 1 d) as [L|L]; [exact L|exfalso].
      assert (1 <= 1 / d) by (apply Qle_shift_div_l; lra). lra.
    + intros (d' & E' & Hd'). rewrite E in E'. injection E' as <-.
      split; [exact Hinv|]. apply Qlt_shift_div_r; lra.
  - split; [apply Qle_refl|]. split.
    + intros [H0 _]. discriminate H0.
    + intros (d & E & Hd). specialize (Hn d E). lra.
Qed.

Lemma parsed_probs_items (probs : dict string) :
  distinct (keys probs) = true ->
  fold_left (fun acc item =>
               let '(setting, prob_str) := item in
               dict_set acc setting (App.parse_denominator float prob_str))
            probs [] =
  map (fun item => (fst item, App.parse_denominator float (snd item))) probs.
Proof.
  intro Hd.
  transitivity
    (fold_left (fun a item =>
                  dict_set a (fst item) (App.parse_denominator float (snd item)))
               probs []).
  - clear Hd. generalize (@nil (string * Q)).
    induction probs as [|[k v] l IH]; intro acc.
    + reflexivity.
    + cbn [fold_left fst snd]. apply IH.
  - rewrite fold_dict_set by (try exact Hd; intros k _ []). reflexivity.
Qed.

(** ** run_analysis: the rows *)

Lemma binomial_p_value_rejects_count (n k : Z) (p : Q) :
  (1 <= n)%Z -> 0 < p -> p < 1 -> (k < 0)%Z \/ (n < k)%Z ->
  binomial_p_value n k p = Raise ValueError.
Proof.
  intros Hn H0 H1 Hk. unfold binomial_p_value.
  rewrite (proj2 (guard_false n p)) by auto.
  unfold binomtest.
  destruct (Z.ltb_spec k 0) as [L|L]; [reflexivity|].
  destruct (Z.ltb_spec n 1) as [L1|L1]; [reflexivity|].
  destruct (Z.ltb_spec n k) as [L2|L2]; [reflexivity|lia].
Qed.

Lemma binomial_p_value_raises (n k : Z) (p : Q) (e : exn) :
  binomial_p_value n k p = Raise e -> e = ValueError.
Proof.
  unfold binomial_p_value, binomtest.
  destruct ((n <=? 0)%Z || Qle_bool p 0 || Qle_bool 1 p); [discriminate|].
  destruct (k <? 0)%Z; [intro H; injection H as <-; reflexivity|].
  destruct (n <? 1)%Z; [intro H; injection H as <-; reflexivity|].
  destruct (n <? k)%Z; [intro H; injection H as <-; reflexivity|].
  destruct (negb (Qle_bool 0 p && Qle_bool p 1));
    [intro H; injection H as <-; reflexivity|discriminate].
Qed.

Lemma analysis_row_raises (n count : Z) (s : Q) (rel : list Q) (i : nat)
  (item : string * Q) (e : exn) :
  App.analysis_row n count s rel i item = Raise e -> e = ValueError.
Proof.
  destruct item as [name p]. unfold App.analysis_row.
  destruct (Qltb 0 p); [|discriminate].
  destruct (binomial_p_value n count p) as [v|e'] eqn:E; simpl.
  - destruct (evaluate_setting v s). discriminate.
  - intro H. injection H as <-. apply (binomial_p_value_raises _ _ _ _ E).
Qed.

Lemma analysis_rows_raise (n count : Z) (s : Q) (rel : list Q)
  (items : dict Q) (i : nat) :
  (1 <= n)%Z -> (count < 0)%Z \/ (n < count)%Z ->
  (exists item, In item items /\ 0 < snd item /\ snd item < 1) ->
  App.analysis_rows n count s rel items i = Raise ValueError.
Proof.
  intros Hn Hc. revert i. induction items as [|item items IH]; intros i Hex.
  - destruct Hex as (x & [] & _).
  - cbn [App.analysis_rows].
    destruct (App.analysis_row n count s rel i item) as [r|e] eqn:E.
    + cbv beta iota delta [bind]. rewrite IH; [reflexivity|].
      destruct Hex as (x & [<-|Hin] & H0 & H1).
      * exfalso. destruct item as [name p]. simpl in H0, H1.
        unfold App.analysis_row in E.
        rewrite (proj2 (Qltb_lt 0 p) H0) in E.
        rewrite binomial_p_value_rejects_count in E by assumption.
        discriminate E.
      * exists x. auto.
    + rewrite (analysis_row_raises _ _ _ _ _ _ _ E). reflexivity.
Qed.

Lemma relative_likelihood_returns (n k : Z) (ps : list Q) :
  ps <> [] ->
  exists out, calculate_relative_likelihood n k ps = Ok out /\
              List.length out = List.length ps /\ py_sum out == 1.
Proof.
  intro Hne.
  destruct (Qeq_dec (py_sum (map (calculate_likelihood n k) ps)) 0) as [Z0|NZ].
  - eexists. split; [apply relative_likelihood_uniform; assumption|].
    split; [apply repeat_length|].
    rewrite py_sum_repeat. field. apply inject_length_nonzero. exact Hne.
  - eexists. split; [apply relative_likelihood_normal; exact NZ|].
    split; [rewrite !length_map; reflexivity|].
    rewrite py_sum_scale. field. exact NZ.
Qed.

(** X19.  When the counter of the colour is above the number of spins (or
    negative) while [n >= 1], and some setting has a denominator above 1,
    [run_analysis] raises [ValueError]: the count reaches the two-sided
    test unchecked. *)
Theorem run_analysis_count_above_spins
  (probs : dict string) (count n : Z) (significance : Q)
  (name prob_str : string) (d : Q) :
  distinct (keys probs) = true ->
  In (name, prob_str) probs -> float prob_str = Ok d -> 1 < d ->
  (1 <= n)%Z -> (count < 0)%Z \/ (n < count)%Z ->
  App.run_analysis float int probs count n significance = Raise ValueError.
Proof.
  intros Hd Hin Ef Hd1 Hn Hc. unfold App.run_analysis.
  rewrite parsed_probs_items by exact Hd. cbv zeta.
  set (parsed := map (fun item => (fst item, App.parse_denominator float (snd item)))
                     probs).
  assert (Hne : values parsed <> []).
  { unfold values, parsed. destruct probs; [destruct Hin|discriminate]. }
  destruct (relative_likelihood_returns n count (values parsed) Hne)
    as (rel & -> & _).
  cbv beta iota delta [bind].
  rewrite analysis_rows_raise; [reflexivity|exact Hn|exact Hc|].
  exists (name, App.parse_denominator float prob_str). split.
  - unfold parsed. apply in_map_iff. exists (name, prob_str). auto.
  - cbn [snd].
    destruct (parse_denominator_cases prob_str) as [(d' & E' & Hd' & ->)|[Hno _]].
    + rewrite Ef in E'. injection E' as <-. split.
      * apply Qlt_shift_div_l; lra.
      * apply Qlt_shift_div_r; lra.
    + specialize (Hno d Ef). lra.
Qed.

End AnalysisFacts.

Lemma run_analysis_count_above_spins_witness :
  App.run_analysis float_literal App.int_literal
    [("設定1", "7.0"); ("設定2", "6.8")]%string 11 10 default_significance
  = Raise ValueError.
Proof.
  apply (run_analysis_count_above_spins float_literal App.int_literal
           [("設定1", "7.0"); ("設定2", "6.8")]%string 11 10
           default_significance "設定1" "7.0" (70 # 10)).
  - reflexivity.
  - left. reflexivity.
  - reflexivity.
  - reflexivity.
  - lia.
  - right. lia.
Defined.

Lemma parse_denominator_range_witness :
  0 < App.parse_denominator float_literal "6.5" /\
  App.parse_denominator float_literal "6.5" < 1.
Proof.
  apply (proj2 (proj2 (parse_denominator_range float_literal "6.5"))).
  exists (65 # 10). split; reflexivity.
Defined.

(** ** run_analysis: the sorted results *)

Lemma mapM_inv {A B : Type} (f : A -> result B) (l : list A) (ys : list B) :
  mapM f l = Ok ys -> Forall2 (fun x y => f x = Ok y) l ys.
Proof.
  revert ys. induction l as [|x l IH]; intros ys H; simpl in H.
  - injection H as <-. constructor.
  - destruct (f x) as [y|e] eqn:E; simpl in H; [|discriminate].
    destruct (mapM f l) as [ys'|e]; simpl in H; [|discriminate].
    injection H as <-. constructor; [exact E|apply IH; reflexivity].
Qed.

Lemma Forall2_in_right {A B : Type} (P : A -> B -> Prop) (l : list A) (l' : list B)
  (y : B) :
  Forall2 P l l' -> In y l' -> exists x, In x l /\ P x y.
Proof.
  induction 1 as [|x y' l l' Hxy _ IH]; intro Hin.
  - destruct Hin.
  - destruct Hin as [<-|Hin].
    + exists x. split; [left; reflexivity|exact Hxy].
    + destruct (IH Hin) as (x' & Hx' & Hp). exists x'. split; [right|]; assumption.
Qed.

Lemma combine_keys_rows (int : string -> result Z) (rows : list App.row)
  (ks : list Z) :
  Forall2 (fun x k => App.sort_key int x = Ok k) rows ks ->
  map snd (combine ks rows) = rows /\
  forall kr, In kr (combine ks rows) -> App.sort_key int (snd kr) = Ok (fst kr).
Proof.
  induction 1 as [|x k rows ks Hxk _ [IH1 IH2]]; simpl.
  - split; [reflexivity|intros kr []].
  - split; [rewrite IH1; reflexivity|].
    intros kr [<-|Hin]; [exact Hxk|apply IH2; exact Hin].
Qed.

Lemma insert_desc_perm (x : Z * App.row) (l : list (Z * App.row)) :
  Permutation (App.insert_desc x l) (x :: l).
Proof.
  induction l as [|y l IH]; simpl.
  - apply Permutation_refl.
  - destruct (fst x <? fst y)%Z.
    + apply Permutation_trans with (y :: x :: l).
      * apply perm_skip. exact IH.
      * apply perm_swap.
    + apply Permutation_refl.
Qed.

Lemma sort_desc_perm (l : list (Z * App.row)) : Permutation (App.sort_desc l) l.
Proof.
  induction l as [|x l IH]; simpl.
  - apply Permutation_refl.
  - apply Permutation_trans with (x :: App.sort_desc l).
    + apply insert_desc_perm.
    + apply perm_skip. exact IH.
Qed.

Lemma insert_desc_sorted (x : Z * App.row) (l : list (Z * App.row)) :
  StronglySorted (fun a b => (fst b <= fst a)%Z) l ->
  StronglySorted (fun a b => (fst b <= fst a)%Z) (App.insert_desc x l).
Proof.
  induction 1 as [|y l Hl IH Hy]; simpl.
  - repeat constructor.
  - destruct (Z.ltb_spec (fst x) (fst y)) as [L|G].
    + constructor; [exact IH|].
      apply (Permutation_Forall (Permutation_sym (insert_desc_perm x l))).
      constructor; [lia|exact Hy].
    + constructor; [constructor; assumption|].
      constructor; [lia|].
      apply Forall_forall. intros z Hz.
      pose proof (proj1 (Forall_forall _ _) Hy z Hz). simpl in *. lia.
Qed.

Lemma sort_desc_sorted (l : list (Z * App.row)) :
  StronglySorted (fun a b => (fst b <= fst a)%Z) (App.sort_desc l).
Proof.
  induction l as [|x l IH]; simpl.
  - constructor.
  - apply insert_desc_sorted. exact IH.
Qed.

Lemma sorted_keys (l : list (Z * App.row)) :
  StronglySorted (fun a b => (fst b <= fst a)%Z) l ->
  StronglySorted Z.ge (map fst l).
Proof.
  induction 1 as [|y l Hl IH Hy]; simpl.
  - constructor.
  - constructor; [exact IH|].
    apply Forall_forall. intros k Hk. apply in_map_iff in Hk.
    destruct Hk as (z & <- & Hz).
    pose proof (proj1 (Forall_forall _ _) Hy z Hz). simpl in *. lia.
Qed.

Lemma sort_keys_again (int : string -> result Z) (sp : list (Z * App.row)) :
  (forall kr, In kr sp -> App.sort_key int (snd kr) = Ok (fst kr)) ->
  mapM (App.sort_key int) (map snd sp) = Ok (map fst sp).
Proof.
  induction sp as [|kr sp IH]; intro H; simpl.
  - reflexivity.
  - rewrite (H kr (or_introl eq_refl)). simpl.
    rewrite IH by (intros z Hz; apply H; right; exact Hz). reflexivity.
Qed.

Lemma py_sum_perm (l l' : list Q) : Permutation l l' -> py_sum l == py_sum l'.
Proof.
  induction 1 as [|x l l' _ IH|x y l|l1 l2 l3 _ IH1 _ IH2].
  - reflexivity.
  - rewrite !py_sum_cons, IH. reflexivity.
  - rewrite !py_sum_cons. ring.
  - rewrite IH1. exact IH2.
Qed.

Lemma py_sum_times (c : Q) (l : list Q) :
  py_sum (map (fun x => x * c) l) == py_sum l * c.
Proof.
  induction l as [|x l IH]; simpl.
  - rewrite py_sum_nil. ring.
  - rewrite !py_sum_cons, IH. ring.
Qed.

Lemma map_nth_seq {A B : Type} (f : A -> B) (l : list A) (d : A) :
  map (fun j => f (nth j l d)) (seq 0 (List.length l)) = map f l.
Proof.
  induction l as [|x l IH]; [reflexivity|].
  cbn [List.length]. rewrite <- cons_seq, <- seq_shift. cbn [map nth].
  rewrite map_map. cbn [nth]. rewrite IH. reflexivity.
Qed.

Section AnalysisResults.

Variable float : string -> result Q.
Variable int : string -> result Z.

Lemma analysis_rows_inv (n count : Z) (s : Q) (rel : list Q) (items : dict Q)
  (i : nat) (rows : list App.row) :
  App.analysis_rows n count s rel items i = Ok rows ->
  Forall2 (fun ji row => App.analysis_row n count s rel (fst ji) (snd ji) = Ok row)
          (combine (seq i (List.length items)) items) rows.
Proof.
  revert i rows. induction items as [|item items IH]; intros i rows H.
  - simpl in H. injection H as <-. constructor.
  - cbn [App.analysis_rows] in H.
    destruct (App.analysis_row n count s rel i item) as [r|e] eqn:E;
      cbv beta iota delta [bind] in H; [|discriminate].
    destruct (App.analysis_rows n count s rel items (S i)) as [rs|e] eqn:E2;
      [|discriminate].
    injection H as <-. cbn [List.length seq combine].
    constructor; [exact E|apply IH; exact E2].
Qed.

Lemma analysis_row_inv (n count : Z) (s : Q) (rel : list Q) (j : nat)
  (item : string * Q) (r : App.row) :
  App.analysis_row n count s rel j item = Ok r ->
  App.setting r = fst item /\ App.probability r = snd item /\
  ((0 < snd item /\
    binomial_p_value n count (snd item) = Ok (App.p_value r) /\
    (App.symbol r, App.eval_text r) = evaluate_setting (App.p_value r) s /\
    App.likelihood r = nth j rel 0 * 100) \/
   (snd item <= 0 /\ App.p_value r = 0 /\ App.symbol r = "?"%string /\
    App.likelihood r = 0)).
Proof.
  destruct item as [name p]. unfold App.analysis_row. cbn [fst snd].
  destruct (Qltb 0 p) eqn:L.
  - apply Qltb_lt in L.
    destruct (binomial_p_value n count p) as [v|e]; simpl; [|discriminate].
    destruct (evaluate_setting v s) as [sym txt] eqn:Ev.
    intro H. injection H as <-. cbn. rewrite Ev. auto 10.
  - apply Qltb_ge in L. intro H. injection H as <-. cbn. auto 10.
Qed.

Lemma analysis_rows_settings (n count : Z) (s : Q) (rel : list Q)
  (items : dict Q) (i : nat) (rows : list App.row) :
  App.analysis_rows n count s rel items i = Ok rows ->
  map App.setting rows = keys items.
Proof.
  intro H. apply analysis_rows_inv in H. revert i rows H.
  induction items as [|item items IH]; intros i rows F;
    cbn [List.length seq combine] in F.
  - inversion F. reflexivity.
  - inversion F as [|? r ? rs Hr Hrs]; subst. cbn [map keys].
    destruct (analysis_row_inv _ _ _ _ _ _ _ Hr) as (E & _).
    cbn [fst snd] in E. rewrite E. f_equal. apply (IH (S i) rs). exact Hrs.
Qed.

(** What a successful run is made of. *)
Lemma run_analysis_inv (probs : dict string) (count n : Z) (s : Q)
  (a : App.analysis) :
  distinct (keys probs) = true ->
  App.run_analysis float int probs count n s = Ok a ->
  exists rel rows ks,
    let parsed :=
      map (fun item => (fst item, App.parse_denominator float (snd item))) probs in
    calculate_relative_likelihood n count (values parsed) = Ok rel /\
    App.analysis_rows n count s rel parsed 0 = Ok rows /\
    mapM (App.sort_key int) rows = Ok ks /\
    a = App.mk_analysis (map snd (App.sort_desc (combine ks rows)))
                        parsed count n.
Proof.
  intros Hd H. unfold App.run_analysis in H.
  rewrite parsed_probs_items in H by exact Hd. cbv zeta in H.
  set (parsed := map (fun item => (fst item, App.parse_denominator float (snd item)))
                     probs) in *.
  destruct (calculate_relative_likelihood n count (values parsed))
    as [rel|e] eqn:E1; cbv beta iota delta [bind] in H; [|discriminate].
  destruct (App.analysis_rows n count s rel parsed 0) as [rows|e] eqn:E2;
    [|discriminate].
  destruct (mapM (App.sort_key int) rows) as [ks|e] eqn:E3; [|discriminate].
  injection H as <-. exists rel, rows, ks. cbv zeta. fold parsed.
  split; [exact E1|]. split; [exact E2|]. split; [exact E3|reflexivity].
Qed.

Lemma sorted_results_perm (rows : list App.row) (ks : list Z) :
  mapM (App.sort_key int) rows = Ok ks ->
  Permutation (map snd (App.sort_desc (combine ks rows))) rows.
Proof.
  intro Hk. apply mapM_inv in Hk.
  destruct (combine_keys_rows int rows ks Hk) as [E _].
  rewrite <- E at 2. apply Permutation_map. apply sort_desc_perm.
Qed.

(** X21.  When [run_analysis] returns, its results hold one row for each
    setting of the table, in descending order of the number in the name of
    the setting, and it stores the count and the number of spins it was
    given. *)
Theorem run_analysis_sorted_rows (probs : dict string) (count n : Z) (s : Q)
  (a : App.analysis) :
  distinct (keys probs) = true ->
  App.run_analysis float int probs count n s = Ok a ->
  Permutation (map App.setting (App.results a)) (keys probs) /\
  (exists ks, mapM (App.sort_key int) (App.results a) = Ok ks /\
              StronglySorted Z.ge ks) /\
  App.count a = count /\ App.total_spins a = n.
Proof.
  intros Hd H.
  destruct (run_analysis_inv probs count n s a Hd H)
    as (rel & rows & ks & Hrel & Hrows & Hks & ->).
  cbn [App.results App.count App.total_spins].
  split; [|split; [|split; reflexivity]].
  - apply Permutation_trans with (map App.setting rows).
    + apply Permutation_map. apply sorted_results_perm. exact Hks.
    + rewrite (analysis_rows_settings _ _ _ _ _ _ _ Hrows).
      unfold keys. rewrite map_map. cbn [fst]. apply Permutation_refl.
  - exists (map fst (App.sort_desc (combine ks rows))). split.
    + apply sort_keys_again. intros kr Hin.
      apply mapM_inv in Hks.
      apply (proj2 (combine_keys_rows int rows ks Hks)).
      apply (Permutation_in _ (sort_desc_perm _)). exact Hin.
    + apply sorted_keys. apply sort_desc_sorted.
Qed.

End AnalysisResults.

Lemma run_analysis_sorted_rows_witness :
  exists a,
    App.run_analysis float_literal App.int_literal
      [("設定1", "4"); ("設定2", "abc"); ("設定6", "2")]%string 1 2
      default_significance = Ok a /\
    Permutation (map App.setting (App.results a))
                ["設定1"; "設定2"; "設定6"]%string.
Proof.
  destruct (App.run_analysis float_literal App.int_literal
              [("設定1", "4"); ("設定2", "abc"); ("設定6", "2")]%string 1 2
              default_significance) as [a|e] eqn:E.
  - exists a. split; [reflexivity|].
    refine (proj1 (run_analysis_sorted_rows float_literal App.int_literal
                     [("設定1", "4"); ("設定2", "abc"); ("設定6", "2")]%string
                     1 2 default_significance a _ E)).
    reflexivity.
  - exfalso. vm_compute in E. discriminate E.
Defined.

(** ** run_analysis: what the rows say *)

Lemma evaluate_setting_symbol (v s : Q) :
  fst (evaluate_setting v s) <> "?"%string.
Proof.
  unfold evaluate_setting.
  destruct (Qltb v (s / 2)); [discriminate|].
  destruct (Qltb v s); [discriminate|].
  destruct (Qltb v (25 # 100)); discriminate.
Qed.

Lemma evaluate_setting_no_evidence (s : Q) :
  s <= 1 -> fst (evaluate_setting 1 s) = "◎"%string.
Proof.
  intro Hs. unfold evaluate_setting.
  change (s / 2) with (s * (1 # 2)).
  rewrite (proj2 (Qltb_ge 1 (s * (1 # 2)))) by lra.
  rewrite (proj2 (Qltb_ge 1 s)) by exact Hs.
  reflexivity.
Qed.

Section AnalysisRows.

Variable float : string -> result Q.
Variable int : string -> result Z.

(** Every row of the results comes from one item of the table. *)
Lemma result_row_origin (probs : dict string) (count n : Z) (s : Q)
  (a : App.analysis) (r : App.row) :
  distinct (keys probs) = true ->
  App.run_analysis float int probs count n s = Ok a ->
  In r (App.results a) ->
  exists rel j item,
    calculate_relative_likelihood n count
      (map (fun it => App.parse_denominator float (snd it)) probs) = Ok rel /\
    (j < List.length probs)%nat /\
    App.analysis_row n count s rel j item = Ok r.
Proof.
  intros Hd H Hin.
  destruct (run_analysis_inv float int probs count n s a Hd H)
    as (rel & rows & ks & Hrel & Hrows & Hks & ->).
  cbn [App.results] in Hin.
  apply (Permutation_in _ (sorted_results_perm int rows ks Hks)) in Hin.
  apply analysis_rows_inv in Hrows.
  destruct (Forall2_in_right _ _ _ _ Hrows Hin) as ([j item] & Hji & Hr).
  exists rel, j, item. split; [|split].
  - unfold values in Hrel. rewrite map_map in Hrel. exact Hrel.
  - apply in_combine_l in Hji. apply in_seq in Hji.
    rewrite length_map in Hji. lia.
  - exact Hr.
Qed.

(** X22.  In the results a row carries the mark ["?"] exactly when the
    probability of its setting is 0 (no usable denominator); such a row has
    p-value 0 and likelihood 0, and every other row has the p-value of
    [binomial_p_value] and the verdict of [evaluate_setting] for it. *)
Theorem run_analysis_unset_rows (probs : dict string) (count n : Z) (s : Q)
  (a : App.analysis) (r : App.row) :
  distinct (keys probs) = true ->
  App.run_analysis float int probs count n s = Ok a ->
  In r (App.results a) ->
  (App.symbol r = "?"%string <-> App.probability r <= 0) /\
  (App.probability r <= 0 -> App.p_value r = 0 /\ App.likelihood r = 0) /\
  (0 < App.probability r ->
   binomial_p_value n count (App.probability r) = Ok (App.p_value r) /\
   (App.symbol r, App.eval_text r) = evaluate_setting (App.p_value r) s).
Proof.
  intros Hd H Hin.
  destruct (result_row_origin probs count n s a r Hd H Hin)
    as (rel & j & item & _ & _ & Hr).
  destruct (analysis_row_inv _ _ _ _ _ _ _ Hr)
    as (_ & Hp & [(H0 & Hv & Hs & _)|(H0 & Hv & Hs & Hl)]);
    rewrite Hp.
  - split; [|split].
    + split; [|intro; lra]. intro E. exfalso.
      apply (evaluate_setting_symbol (App.p_value r) s).
      rewrite <- Hs. exact E.
    + intro. lra.
    + intros _. rewrite <- Hp. split; [rewrite Hp; exact Hv|exact Hs].
  - split; [|split].
    + split; [intros _; exact H0|intros _; exact Hs].
    + intros _. split; assumption.
    + intro. lra.
Qed.

(** X20.  With no spins ([n <= 0]) and a significance of at most 1, every
    setting with a usable denominator gets the p-value 1, the verdict
    ["◎"] and the same share [100 / len] of the likelihood, whatever the
    count is. *)
Theorem run_analysis_without_spins (probs : dict string) (count n : Z) (s : Q)
  (a : App.analysis) (r : App.row) :
  distinct (keys probs) = true ->
  App.run_analysis float int probs count n s = Ok a ->
  (n <= 0)%Z -> s <= 1 ->
  In r (App.results a) -> 0 < App.probability r ->
  App.p_value r = 1 /\ App.symbol r = "◎"%string /\
  App.likelihood r == 100 / inject_Z (Z.of_nat (List.length probs)).
Proof.
  intros Hd H Hn Hs Hin Hpos.
  destruct (result_row_origin probs count n s a r Hd H Hin)
    as (rel & j & item & Hrel & Hj & Hr).
  destruct (analysis_row_inv _ _ _ _ _ _ _ Hr)
    as (_ & Hp & [(H0 & Hv & Hsym & Hl)|(H0 & _)]); [|rewrite Hp in Hpos; lra].
  assert (Hne : map (fun it => App.parse_denominator float (snd it)) probs <> []).
  { destruct probs; [simpl in Hj; lia|discriminate]. }
  unfold binomial_p_value in Hv.
  rewrite (proj2 (guard_true n (snd item))) in Hv by (left; exact Hn).
  injection Hv as Hv. rewrite <- Hv in *.
  split; [reflexivity|]. split.
  - rewrite <- (evaluate_setting_no_evidence s Hs). rewrite <- Hsym. reflexivity.
  - rewrite relative_likelihood_uniform in Hrel.
    + injection Hrel as <-. rewrite Hl, length_map.
      rewrite nth_repeat_lt by exact Hj.
      field. intro Z0. unfold Qeq, inject_Z in Z0. simpl in Z0. lia.
    + exact Hne.
    + apply py_sum_zeros. intros x Hx. apply in_map_iff in Hx.
      destruct Hx as (p & <- & _).
      rewrite calculate_likelihood_no_evidence by (left; exact Hn). reflexivity.
Qed.

Lemma analysis_rows_likelihoods (n count : Z) (s : Q) (rel : list Q)
  (items : dict Q) (i : nat) (rows : list App.row) :
  App.analysis_rows n count s rel items i = Ok rows ->
  (forall item, In item items -> 0 < snd item) ->
  map App.likelihood rows =
  map (fun j => nth j rel 0 * 100) (seq i (List.length items)).
Proof.
  intros H Hpos. apply analysis_rows_inv in H. revert i rows H.
  induction items as [|item items IH]; intros i rows F;
    cbn [List.length seq combine] in F.
  - inversion F. reflexivity.
  - inversion F as [|? r ? rs Hr Hrs]; subst. cbn [map List.length seq].
    destruct (analysis_row_inv _ _ _ _ _ _ _ Hr)
      as (_ & _ & [(_ & _ & _ & Hl)|(H0 & _)]).
    + cbn [fst] in Hl. rewrite Hl. f_equal.
      apply IH; [|exact Hrs]. intros it Hit. apply Hpos. right. exact Hit.
    + cbn [snd] in H0. specialize (Hpos item (or_introl eq_refl)). lra.
Qed.

(** X23.  When every denominator of the table is a positive number and
    [run_analysis] returns, the likelihood percentages of its rows add up
    to 100. *)
Theorem run_analysis_percentages (probs : dict string) (count n : Z) (s : Q)
  (a : App.analysis) :
  distinct (keys probs) = true ->
  (forall name prob_str, In (name, prob_str) probs ->
     exists d, float prob_str = Ok d /\ 0 < d) ->
  App.run_analysis float int probs count n s = Ok a ->
  py_sum (map App.likelihood (App.results a)) == 100.
Proof.
  intros Hd Hall H.
  destruct (run_analysis_inv float int probs count n s a Hd H)
    as (rel & rows & ks & Hrel & Hrows & Hks & ->).
  cbn [App.results].
  transitivity (py_sum (map App.likelihood rows)).
  { apply py_sum_perm. apply Permutation_map.
    apply (sorted_results_perm int). exact Hks. }
  set (parsed := map (fun item => (fst item, App.parse_denominator float (snd item)))
                     probs) in *.
  assert (Hne : values parsed <> []).
  { intro E. rewrite E in Hrel. discriminate Hrel. }
  destruct (relative_likelihood_returns n count (values parsed) Hne)
    as (rel' & Hrel' & Hlen & Hsum).
  rewrite Hrel in Hrel'. injection Hrel' as <-.
  rewrite (analysis_rows_likelihoods _ _ _ _ _ _ _ Hrows).
  - replace (List.length parsed) with (List.length rel)
      by (rewrite Hlen; unfold values; apply length_map).
    rewrite (map_nth_seq (fun x => x * 100) rel 0).
    rewrite py_sum_times, Hsum. reflexivity.
  - intros item Hitem. unfold parsed in Hitem. apply in_map_iff in Hitem.
    destruct Hitem as ([name str] & <- & Hin). cbn [fst snd].
    destruct (Hall name str Hin) as (d & Ef & Hd0).
    destruct (parse_denominator_cases float str) as [(d' & E' & Hd' & ->)|[Hn _]].
    + apply Qlt_shift_div_l; lra.
    + specialize (Hn d Ef). lra.
Qed.

End AnalysisRows.

Lemma run_analysis_unset_rows_witness :
  App.symbol (App.mk_row "設定2" 0 0 "?" "確率未設定" 0) = "?"%string
  <-> App.probability (App.mk_row "設定2" 0 0 "?" "確率未設定" 0) <= 0.
Proof.
  refine (proj1 (run_analysis_unset_rows float_literal App.int_literal
                   [("設定2", "abc")]%string 2 10 default_significance
                   _ _ eq_refl eq_refl _)).
  left. reflexivity.
Defined.

Lemma run_analysis_without_spins_witness :
  exists a r,
    App.run_analysis float_literal App.int_literal
      [("設定1", "7.0"); ("設定2", "6.8")]%string 3 0 default_significance
      = Ok a /\
    In r (App.results a) /\ App.p_value r = 1 /\ App.symbol r = "◎"%string.
Proof.
  eexists. eexists. split; [vm_compute; reflexivity|]. split.
  - left. reflexivity.
  - refine ((fun H => conj (proj1 H) (proj1 (proj2 H)))
              (run_analysis_without_spins float_literal App.int_literal
                 [("設定1", "7.0"); ("設定2", "6.8")]%string 3 0
                 default_significance _ _ eq_refl eq_refl _ _ _ _)).
    + lia.
    + discriminate.
    + left. reflexivity.
    + reflexivity.
Defined.

Lemma run_analysis_percentages_witness :
  exists a,
    App.run_analysis float_literal App.int_literal
      [("設定1", "4"); ("設定2", "2")]%string 1 4 default_significance
      = Ok a /\
    py_sum (map App.likelihood (App.results a)) == 100.
Proof.
  destruct (App.run_analysis float_literal App.int_literal
              [("設定1", "4"); ("設定2", "2")]%string 1 4 default_significance)
    as [a|e] eqn:E.
  - exists a. split; [reflexivity|].
    refine (run_analysis_percentages float_literal App.int_literal
              [("設定1", "4"); ("設定2", "2")]%string 1 4
              default_significance a _ _ E).
    + reflexivity.
    + intros name str [H|[H|[]]]; injection H as <- <-.
      * exists 4. split; reflexivity.
      * exists 2. split; reflexivity.
  - exfalso. vm_compute in E. discriminate E.
Defined.
